(** * PanelReader: layout reconstruction, checked against the Python sources

    The development embeds the geometry code of [YOLO/ordered_detection.py]
    (row merger, reading-order sorter, shrink-wrapper) and of [Magi/magi.py]
    (inclusion expander) and states the properties of the specification
    over that embedding.

    Numbers.  Box coordinates are Python floats in the program.  They are
    idealised here as exact rationals ([Q]): rounding, overflow, infinities
    and NaN are not modelled.  Integer coordinates are [Z]; [int(c)] is
    truncation towards zero.

    Control.  Python exceptions are values of [exn]; a computation returns
    an [outcome].  [while] loops recurse on a fuel argument and report
    [OutOfFuel] when it is used up; the theorems show that the fuel handed
    out by the top-level functions is never used up. *)

From Stdlib Require Import QArith Lqa Lia ZArith.
From stdpp Require Import base list.

Local Open Scope Q_scope.

(** ** Outcomes of Python computations *)

Inductive exn : Set :=
| ZeroDivisionError
| IndexError
| ValueError
| Cv2Error.

Inductive outcome (A : Type) : Type :=
| Ok (a : A)
| Raise (e : exn)
| OutOfFuel.

Arguments Ok {A} a.
Arguments Raise {A} e.
Arguments OutOfFuel {A}.

#[global] Instance outcome_ret : MRet outcome := @Ok.
#[global] Instance outcome_bind : MBind outcome :=
  fun A B f m =>
    match m with
    | Ok a => f a
    | Raise e => Raise e
    | OutOfFuel => OutOfFuel
    end.

(** [l[i]] for a non-negative index: [IndexError] out of range. *)
Definition getitem {A} (l : list A) (i : nat) : outcome A :=
  match l !! i with
  | Some a => Ok a
  | None => Raise IndexError
  end.

(** ** Python arithmetic on the idealised floats *)

(** [x < y] as a boolean. *)
Definition Qltb (x y : Q) : bool := negb (Qle_bool y x).

(** Python's [min(a, b)]: the first argument unless the second is smaller. *)
Definition py_min (a b : Q) : Q := if Qltb b a then b else a.

(** Python's [max(a, b)]: the first argument unless the second is larger. *)
Definition py_max (a b : Q) : Q := if Qltb a b then b else a.

(** [int(c)] on a float: truncation towards zero. *)
Definition py_int (c : Q) : Z := Z.quot (Qnum c) (Zpos (Qden c)).

(** ** Boxes *)

(** A box [[x1, y1, x2, y2]]. *)
Record Box : Set := mkBox { x1 : Q; y1 : Q; x2 : Q; y2 : Q }.

(** [b] lies inside [o]. *)
Definition contained (b o : Box) : Prop :=
  x1 o <= x1 b /\ y1 o <= y1 b /\ x2 b <= x2 o /\ y2 b <= y2 o.

Definition area (b : Box) : Q := (x2 b - x1 b) * (y2 b - y1 b).

(** A box with integer coordinates, as the programs write them out. *)
Record ZBox : Set := mkZBox { zx1 : Z; zy1 : Z; zx2 : Z; zy2 : Z }.

(** The box [[a, b, c, d]] with integer-valued coordinates. *)
Definition box (a b c d : Z) : Box :=
  mkBox (inject_Z a) (inject_Z b) (inject_Z c) (inject_Z d).

(** A gray image: rows of intensities. *)
Abbreviation image := (list (list Z)) (only parsing).

Module YOLO.

(** *** Row merger *)

(** [merge_boxes(box1, box2)]: the box that encompasses both. *)
Definition merge_boxes (box1 box2 : Box) : Box :=
  mkBox (py_min (x1 box1) (x1 box2))
        (py_min (y1 box1) (y1 box2))
        (py_max (x2 box1) (x2 box2))
        (py_max (y2 box1) (y2 box2)).

Definition y_overlap (box1 box2 : Box) : Q :=
  py_min (y2 box1) (y2 box2) - py_max (y1 box1) (y1 box2).

Definition min_height (box1 box2 : Box) : Q :=
  py_min (y2 box1 - y1 box1) (y2 box2 - y1 box2).

(** [same_row = y_overlap > min_height * 0.5] *)
Definition same_row (box1 box2 : Box) : bool :=
  Qltb (min_height box1 box2 * (5 # 10)) (y_overlap box1 box2).

Definition x_overlap (box1 box2 : Box) : Q :=
  py_max 0 (py_min (x2 box1) (x2 box2) - py_max (x1 box1) (x1 box2)).

Definition overlap_area (box1 box2 : Box) : Q :=
  x_overlap box1 box2 * y_overlap box1 box2.

(** [overlap_area / min(area1, area2)]; Python raises on a zero divisor. *)
Definition overlap_ratio (box1 box2 : Box) : outcome Q :=
  let d := py_min (area box1) (area box2) in
  if Qeq_bool d 0 then Raise ZeroDivisionError
  else Ok (overlap_area box1 box2 / d).

(** The two nested tests of the innermost loop body: [true] when the pair
    is merged.  The ratio is only computed for a pair on the same row. *)
Definition merge_test (overlap_threshold : Q) (box1 box2 : Box)
  : outcome bool :=
  if same_row box1 box2 then
    ratio ← overlap_ratio box1 box2;
    Ok (Qltb overlap_threshold ratio)
  else Ok false.

(** [while j < len(boxes)]: [Some boxes'] when a pair was merged
    ([merged = True], [break]), [None] when [j] ran off the end. *)
Fixpoint scan_j (fuel : nat) (overlap_threshold : Q) (boxes : list Box)
  (i j : nat) : outcome (option (list Box)) :=
  match fuel with
  | O => OutOfFuel
  | S fuel' =>
    if (j <? length boxes)%nat then
      box1 ← getitem boxes i;
      box2 ← getitem boxes j;
      m ← merge_test overlap_threshold box1 box2;
      if (m : bool) then
        Ok (Some (delete j (<[i := merge_boxes box1 box2]> boxes)))
      else scan_j fuel' overlap_threshold boxes i (j + 1)
    else Ok None
  end.

(** [while i < len(boxes)]: one pass over the pairs [(i, j)], [i < j]. *)
Fixpoint scan_i (fuel : nat) (overlap_threshold : Q) (boxes : list Box)
  (i : nat) : outcome (option (list Box)) :=
  match fuel with
  | O => OutOfFuel
  | S fuel' =>
    if (i <? length boxes)%nat then
      r ← scan_j (S (length boxes)) overlap_threshold boxes i (i + 1);
      match r with
      | Some boxes' => Ok (Some boxes')
      | None => scan_i fuel' overlap_threshold boxes (i + 1)
      end
    else Ok None
  end.

(** One iteration of [while merged]: a full pass from [i = 0]. *)
Definition pass (overlap_threshold : Q) (boxes : list Box)
  : outcome (option (list Box)) :=
  scan_i (S (length boxes)) overlap_threshold boxes 0.

(** [while merged]. *)
Fixpoint merge_loop (fuel : nat) (overlap_threshold : Q) (boxes : list Box)
  : outcome (list Box) :=
  match fuel with
  | O => OutOfFuel
  | S fuel' =>
    r ← pass overlap_threshold boxes;
    match r with
    | Some boxes' => merge_loop fuel' overlap_threshold boxes'
    | None => Ok boxes
    end
  end.

(** The loops work on a copy of the list ([boxes.copy()]); the fuel of the
    outer loop is one iteration per box. *)
Definition merge_overlapping_boxes (boxes : list Box) (overlap_threshold : Q)
  : outcome (list Box) :=
  if (length boxes <=? 1)%nat then Ok boxes
  else merge_loop (length boxes) overlap_threshold boxes.

(** *** Reading-order sorter *)

(** Insertion of [b] in front of a list sorted by [key], when [b] came
    before every element of the list: [b] goes before the first element
    that does not strictly precede it. *)
Fixpoint insert_by {A} (key : A -> Q) (reverse : bool) (b : A) (l : list A)
  : list A :=
  match l with
  | [] => [b]
  | c :: l' =>
    if (if reverse then Qltb (key b) (key c) else Qltb (key c) (key b))
    then c :: insert_by key reverse b l'
    else b :: c :: l'
  end.

(** [l.sort(key=key, reverse=reverse)].  Python's sort is stable, also
    with [reverse=True]; a stable sort is determined by its input, so the
    insertion sort below returns the list that Python's returns. *)
Definition py_sort {A} (key : A -> Q) (reverse : bool) (l : list A) : list A :=
  foldr (insert_by key reverse) [] l.

(** [l[-1]] *)
Definition getitem_last {A} (l : list A) : outcome A :=
  match last l with
  | Some a => Ok a
  | None => Raise IndexError
  end.

(** [boxes[i][1] > current_cluster[-1][3] * 0.95] *)
Definition starts_new_row (b prev : Box) : bool :=
  Qltb (y2 prev * (95 # 100)) (y1 b).

(** [for i in range(1, len(boxes))], over the boxes [boxes[1:]] still to
    be placed; the final [clusters.append(current_cluster)] is its last
    step. *)
Fixpoint cluster_loop (clusters : list (list Box)) (current_cluster : list Box)
  (rest : list Box) : outcome (list (list Box)) :=
  match rest with
  | [] => Ok (clusters ++ [current_cluster])
  | b :: rest' =>
    prev ← getitem_last current_cluster;
    if starts_new_row b prev
    then cluster_loop (clusters ++ [current_cluster]) [b] rest'
    else cluster_loop clusters (current_cluster ++ [b]) rest'
  end.

(** The row clustering of an already sorted list. *)
Definition row_clusters (boxes : list Box) : outcome (list (list Box)) :=
  first ← getitem boxes 0;
  cluster_loop [] [first] (drop 1 boxes).

(** [for cluster in clusters: cluster.sort(...); sorted_panels.extend(cluster)] *)
Definition extend_sorted (rtl : bool) (clusters : list (list Box)) : list Box :=
  foldl (fun sorted_panels cluster => sorted_panels ++ py_sort x1 rtl cluster)
        [] clusters.

(** [boxes.sort] sorts the caller's list in place; the value returned is
    the new list [sorted_panels]. *)
Definition xy_cut_sort (boxes : list Box) (rtl : bool) : outcome (list Box) :=
  if (length boxes <=? 1)%nat then Ok boxes
  else
    let boxes := py_sort y1 false boxes in
    clusters ← row_clusters boxes;
    Ok (extend_sorted rtl clusters).

(** *** Shrink-wrapper

    The calls [cv2.threshold], [cv2.findNonZero] and [cv2.boundingRect]
    are library code; they are modelled by their behaviour on a
    single-channel 8-bit image.  For an array without elements (an empty
    crop) [cv2.threshold] hands back [None] as its image, and
    [cv2.findNonZero] raises [cv2.error] on [None]. *)

Local Open Scope Z_scope.

(** A slice bound [k] of Python, for a sequence of length [n]: negative
    bounds count from the end, and all bounds are clipped to [0, n]. *)
Definition slice_bound (n k : Z) : Z :=
  if k <? 0 then Z.max (k + n) 0 else Z.min k n.

(** [l[lo:hi]] *)
Definition py_slice {A} (lo hi : Z) (l : list A) : list A :=
  let n := Z.of_nat (length l) in
  let lo' := slice_bound n lo in
  let hi' := slice_bound n hi in
  take (Z.to_nat (hi' - lo')) (drop (Z.to_nat lo') l).

(** [img[y1:y2, x1:x2]] *)
Definition crop (img : image) (x1 y1 x2 y2 : Z) : image :=
  py_slice x1 x2 <$> py_slice y1 y2 img.

(** The rule of [cv2.THRESH_BINARY_INV]: [0] where [src > thresh],
    [maxval] elsewhere. *)
Definition threshold_binary_inv (src : image) (thresh maxval : Z) : image :=
  (fun row : list Z =>
     (fun v => if thresh <? v then 0 else maxval) <$> row) <$> src.

(** The array has no element: no row, or rows of no column. *)
Definition is_empty (src : image) : bool := (length (concat src) =? 0)%nat.

(** [cv2.threshold(src, thresh, maxval, cv2.THRESH_BINARY_INV)[1]]:
    [None] for an array without elements. *)
Definition threshold (src : image) (thresh maxval : Z) : option image :=
  if is_empty src then None
  else Some (threshold_binary_inv src thresh maxval).

(** The points [(x, y)] of one row that are not zero, from column [x]. *)
Fixpoint row_points (y x : Z) (row : list Z) : list (Z * Z) :=
  match row with
  | [] => []
  | v :: row' =>
    if v =? 0 then row_points y (x + 1) row'
    else (x, y) :: row_points y (x + 1) row'
  end.

(** The points of an image that are not zero, from row [y]. *)
Fixpoint image_points (y : Z) (img : image) : list (Z * Z) :=
  match img with
  | [] => []
  | row :: img' => row_points y 0 row ++ image_points (y + 1) img'
  end.

(** [cv2.findNonZero(mask)]: [cv2.error] when [mask] is [None]; [None]
    when no pixel of the mask is set. *)
Definition findNonZero (mask : option image)
  : outcome (option (list (Z * Z))) :=
  match mask with
  | None => Raise Cv2Error
  | Some mask =>
    Ok (match image_points 0 mask with
        | [] => None
        | pts => Some pts
        end)
  end.

(** [cv2.boundingRect(points)]: [(x, y, w, h)] of the smallest upright
    rectangle that holds the points, [w] and [h] counted in pixels. *)
Definition boundingRect (pts : list (Z * Z)) : Z * Z * Z * Z :=
  match pts with
  | [] => (0, 0, 0, 0)
  | (x, y) :: pts' =>
    let xmin := foldr Z.min x (pts'.*1) in
    let xmax := foldr Z.max x (pts'.*1) in
    let ymin := foldr Z.min y (pts'.*2) in
    let ymax := foldr Z.max y (pts'.*2) in
    (xmin, ymin, xmax - xmin + 1, ymax - ymin + 1)
  end.

(** The body of [for box in ordered_boxes]: the box appended to
    [final_output_boxes]. *)
Definition shrink_wrap (full_img_gray : image) (box : Box) : outcome ZBox :=
  let x1 := py_int (x1 box) in
  let y1 := py_int (y1 box) in
  let x2 := py_int (x2 box) in
  let y2 := py_int (y2 box) in
  let panel_roi := crop full_img_gray x1 y1 x2 y2 in
  let ink_mask := threshold panel_roi 245 255 in
  ink_coords ← findNonZero ink_mask;
  match ink_coords with
  | Some ink_coords =>
    let '(ix, iy, iw, ih) := boundingRect ink_coords in
    Ok (mkZBox (x1 + ix) (y1 + iy) (x1 + ix + iw) (y1 + iy + ih))
  | None => Ok (mkZBox x1 y1 x2 y2)
  end.

(** [for box in ordered_boxes]: the list [final_output_boxes]; the first
    box that raises ends the loop. *)
Fixpoint shrink_all (full_img_gray : image) (ordered_boxes : list Box)
  : outcome (list ZBox) :=
  match ordered_boxes with
  | [] => Ok []
  | box :: rest =>
    b ← shrink_wrap full_img_gray box;
    final_output_boxes ← shrink_all full_img_gray rest;
    Ok (b :: final_output_boxes)
  end.

(** *** Output records *)

Record Entry : Set := mkEntry { index : Z; bbox : ZBox }.

(** [for i, box in enumerate(final_output_boxes)]: index [i + 1]. *)
Definition reading_order (final_output_boxes : list ZBox) : list Entry :=
  imap (fun i box => mkEntry (Z.of_nat i + 1) box) final_output_boxes.

(** The part of [main] after detection: merge, order, shrink-wrap, number. *)
Definition pipeline (full_img_gray : image) (raw_boxes : list Box)
  : outcome (list Entry) :=
  if (length raw_boxes =? 0)%nat then Ok []
  else
    cleaned_boxes ← merge_overlapping_boxes raw_boxes (3 # 10)%Q;
    ordered_boxes ← xy_cut_sort cleaned_boxes true;
    final_output_boxes ← shrink_all full_img_gray ordered_boxes;
    Ok (reading_order final_output_boxes).

End YOLO.

Module Magi.

(** Boxes are Python lists of floats here, as the detection model returns
    them in a dictionary; an association is a pair of indices. *)
Record detections : Type := mkDetections {
  panels : list (list Q);
  texts : list (list Q);
  associations : list (Z * Z)
}.

(** [not (A or B or C or D)], with Python's left-to-right evaluation. *)
Definition boxes_overlap (box1 box2 : list Q) (threshold : Q) : outcome bool :=
  a ← getitem box1 2; b ← getitem box2 0;
  if Qltb a (b - threshold) then Ok false else
  a ← getitem box1 0; b ← getitem box2 2;
  if Qltb (b + threshold) a then Ok false else
  a ← getitem box1 3; b ← getitem box2 1;
  if Qltb a (b - threshold) then Ok false else
  a ← getitem box1 1; b ← getitem box2 3;
  if Qltb (b + threshold) a then Ok false else Ok true.

(** [x1, y1, x2, y2 = panel_box] *)
Definition unpack4 (l : list Q) : outcome (Q * Q * Q * Q) :=
  match l with
  | [a; b; c; d] => Ok (a, b, c, d)
  | _ => Raise ValueError
  end.

(** [[a[1] for a in associations if a[0] == p_idx]] *)
Definition associated_text_indices (associations : list (Z * Z)) (p_idx : nat)
  : list Z :=
  (filter (fun a => a.1 = Z.of_nat p_idx) associations).*2.

(** [for t_idx, text_box in enumerate(texts)], from index [t_idx] on, on
    the running corners [(x1, y1, x2, y2)]. *)
Fixpoint expand (panel_box : list Q) (associated : list Z) (t_idx : nat)
  (texts : list (list Q)) (acc : Q * Q * Q * Q) : outcome (Q * Q * Q * Q) :=
  match texts with
  | [] => Ok acc
  | text_box :: texts' =>
    hit ← (if bool_decide (Z.of_nat t_idx ∈ associated) then Ok true
           else boxes_overlap panel_box text_box 5);
    acc' ← (if (hit : bool) then
              let '(x1, y1, x2, y2) := acc in
              t0 ← getitem text_box 0;
              t1 ← getitem text_box 1;
              t2 ← getitem text_box 2;
              t3 ← getitem text_box 3;
              Ok (py_min x1 t0, py_min y1 t1, py_max x2 t2, py_max y2 t3)
            else Ok acc);
    expand panel_box associated (S t_idx) texts' acc'
  end.

(** The body of [for p_idx, panel_box in enumerate(panels)]. *)
Definition expand_panel (res : detections) (p_idx : nat) (panel_box : list Q)
  : outcome ZBox :=
  acc ← unpack4 panel_box;
  let associated := associated_text_indices (associations res) p_idx in
  '(x1, y1, x2, y2) ← expand panel_box associated 0 (texts res) acc;
  Ok (mkZBox (py_int x1) (py_int y1) (py_int x2) (py_int y2)).

(** [for p_idx, panel_box in enumerate(panels)], from index [p_idx] on. *)
Fixpoint panels_loop (res : detections) (p_idx : nat) (panels : list (list Q))
  : outcome (list ZBox) :=
  match panels with
  | [] => Ok []
  | panel_box :: panels' =>
    b ← expand_panel res p_idx panel_box;
    final_panels ← panels_loop res (S p_idx) panels';
    Ok (b :: final_panels)
  end.

(** [get_inclusive_panels], from the detection result on. *)
Definition get_inclusive_panels (res : detections) : outcome (list ZBox) :=
  panels_loop res 0 (panels res).

End Magi.

(** * Vocabulary of the specification *)

Definition positive_area (b : Box) : Prop := 0 < area b.

(** Every box of [boxes] lies inside some box of [out]. *)
Definition covers (out boxes : list Box) : Prop :=
  forall b, b ∈ boxes -> exists o, o ∈ out /\ contained b o.

(** The pair passes the same-row test and the overlap-ratio test. *)
Definition mergeable (overlap_threshold : Q) (box1 box2 : Box) : Prop :=
  YOLO.same_row box1 box2 = true /\
  overlap_threshold
  < YOLO.overlap_area box1 box2 / py_min (area box1) (area box2).

(** One merge: the pair at [i < j] passes both tests, [boxes[i]] becomes
    the union and [boxes[j]] is popped. *)
Inductive merge_step (overlap_threshold : Q) (boxes : list Box)
  : list Box -> Prop :=
| merge_step_at (i j : nat) (box1 box2 : Box) :
    (i < j)%nat ->
    boxes !! i = Some box1 ->
    boxes !! j = Some box2 ->
    YOLO.merge_test overlap_threshold box1 box2 = Ok true ->
    merge_step overlap_threshold boxes
      (delete j (<[i := YOLO.merge_boxes box1 box2]> boxes)).

(** Every two neighbours of [l] are related by [R]. *)
Fixpoint chain {A} (R : A -> A -> Prop) (l : list A) : Prop :=
  match l with
  | a :: l' =>
    match l' with
    | b :: _ => R a b /\ chain R l'
    | [] => True
    end
  | [] => True
  end.

(** [a] may stand before [b] in a list sorted by [key]. *)
Definition in_order {A} (key : A -> Q) (reverse : bool) (a b : A) : Prop :=
  if reverse then key b <= key a else key a <= key b.

#[global] Instance Qeq_decision (x y : Q) : Decision (x == y) := Qeq_dec x y.

(** The elements of [l] whose key is [k], in the order of [l]. *)
Definition with_key {A} (key : A -> Q) (k : Q) (l : list A) : list A :=
  filter (fun a => key a == k) l.

(** [r] is [l] sorted by [key], ascending or descending, with elements
    of equal key in the order [l] has them; there is one such list. *)
Definition stably_sorted {A} (key : A -> Q) (reverse : bool) (l r : list A)
  : Prop :=
  r ≡ₚ l /\
  chain (in_order key reverse) r /\
  forall k, with_key key k r = with_key key k l.

(** A row in the making: not empty, and no box of it started a new row
    after the one placed before it. *)
Definition row_ok (c : list Box) : Prop :=
  c <> [] /\ chain (fun prev b => YOLO.starts_new_row b prev = false) c.

(** Two consecutive rows: the first box of the second started a new row
    after the last box of the first. *)
Definition row_break (c c' : list Box) : Prop :=
  exists prev b,
    last c = Some prev /\ head c' = Some b /\
    YOLO.starts_new_row b prev = true.

(** The row clustering in the words of the specification: the next box is
    compared with the largest [y2] of the current row. *)
Module RunningMax.

Definition max_y2 (first : Box) (others : list Box) : Q :=
  foldl (fun m b => py_max m (y2 b)) (y2 first) others.

Definition row_bottom (current_cluster : list Box) : outcome Q :=
  match current_cluster with
  | first :: others => Ok (max_y2 first others)
  | [] => Raise IndexError
  end.

Fixpoint cluster_loop (clusters : list (list Box)) (current_cluster : list Box)
  (rest : list Box) : outcome (list (list Box)) :=
  match rest with
  | [] => Ok (clusters ++ [current_cluster])
  | b :: rest' =>
    bottom ← row_bottom current_cluster;
    if Qltb (bottom * (95 # 100)) (y1 b)
    then cluster_loop (clusters ++ [current_cluster]) [b] rest'
    else cluster_loop clusters (current_cluster ++ [b]) rest'
  end.

Definition row_clusters (boxes : list Box) : outcome (list (list Box)) :=
  first ← getitem boxes 0;
  cluster_loop [] [first] (drop 1 boxes).

End RunningMax.

(** The pixel [(x, y)] of the image is ink: its intensity is at most 245. *)
Definition ink_at (img : image) (x y : Z) : Prop :=
  (0 <= x)%Z /\ (0 <= y)%Z /\
  exists row v,
    img !! Z.to_nat y = Some row /\ row !! Z.to_nat x = Some v /\
    (v <= 245)%Z.

(** The image has a pixel at [(x, y)]. *)
Definition in_image (img : image) (x y : Z) : Prop :=
  (0 <= x)%Z /\ (0 <= y)%Z /\
  exists row v, img !! Z.to_nat y = Some row /\ row !! Z.to_nat x = Some v.

(** The box holds a pixel of the image: its crop [y1:y2, x1:x2] is not
    empty. *)
Definition reaches (img : image) (b : ZBox) : Prop :=
  exists x y,
    (zx1 b <= x < zx2 b)%Z /\ (zy1 b <= y < zy2 b)%Z /\ in_image img x y.

(** The pixel [(x, y)] is an ink pixel of the image inside the box, whose
    right and bottom edges are exclusive as in the crop [y1:y2, x1:x2]. *)
Definition ink_in (img : image) (b : ZBox) (x y : Z) : Prop :=
  (zx1 b <= x < zx2 b)%Z /\ (zy1 b <= y < zy2 b)%Z /\ ink_at img x y.

(** [b] lies inside [o], for integer boxes. *)
Definition zcontained (b o : ZBox) : Prop :=
  (zx1 o <= zx1 b)%Z /\ (zy1 o <= zy1 b)%Z /\
  (zx2 b <= zx2 o)%Z /\ (zy2 b <= zy2 o)%Z.

(** An association whose two indices point into [panels] and [texts]. *)
Definition in_range (res : Magi.detections) (a : Z * Z) : Prop :=
  (0 <= a.1 < Z.of_nat (length (Magi.panels res)))%Z /\
  (0 <= a.2 < Z.of_nat (length (Magi.texts res)))%Z.

#[global] Instance in_range_dec res a : Decision (in_range res a).
Proof. unfold in_range. apply _. Defined.

(** The detection result without its malformed associations. *)
Definition drop_malformed (res : Magi.detections) : Magi.detections :=
  Magi.mkDetections (Magi.panels res) (Magi.texts res)
    (filter (in_range res) (Magi.associations res)).

(** Every box of the detection result has four coordinates. *)
Definition well_formed (res : Magi.detections) : Prop :=
  Forall (fun b => length b = 4%nat) (Magi.panels res) /\
  Forall (fun b => length b = 4%nat) (Magi.texts res).

(** The number is the value of an integer. *)
Definition is_integer (q : Q) : Prop := exists z, q == inject_Z z.

(** The running corners [a'] hold the corners [a]. *)
Definition corners_le (a' a : Q * Q * Q * Q) : Prop :=
  let '(x1', y1', x2', y2') := a' in
  let '(x1, y1, x2, y2) := a in
  x1' <= x1 /\ y1' <= y1 /\ x2 <= x2' /\ y2 <= y2'.

(** A box with a positive width and no negative height. *)
Definition upright (b : Box) : Prop := x1 b < x2 b /\ y1 b <= y2 b.

(** A box whose corners are in order; its width or height may be zero. *)
Definition ordered_corners (b : Box) : Prop := x1 b <= x2 b /\ y1 b <= y2 b.

(** A run of the outer loop: [n] passes that merge a pair, each on the
    list the pass before left, and then a pass that finds nothing, on the
    list [out]. *)
Inductive passes (overlap_threshold : Q) : list Box -> nat -> list Box -> Prop :=
| passes_exit (l : list Box) :
    YOLO.pass overlap_threshold l = Ok None ->
    passes overlap_threshold l 0 l
| passes_merge (l l' : list Box) (n : nat) (out : list Box) :
    YOLO.pass overlap_threshold l = Ok (Some l') ->
    passes overlap_threshold l' n out ->
    passes overlap_threshold l (S n) out.

(** A run of merges, each as in [merge_step]. *)
Inductive merges (overlap_threshold : Q) : list Box -> list Box -> Prop :=
| merges_done (l : list Box) : merges overlap_threshold l l
| merges_more (l l' l'' : list Box) :
    merge_step overlap_threshold l l' ->
    merges overlap_threshold l' l'' ->
    merges overlap_threshold l l''.

(** The three ways a scan over the pairs can end: a merge, nothing to
    merge, or a division by zero at a pair of one row. *)
Inductive scan_result (thr : Q) (boxes : list Box)
  : outcome (option (list Box)) -> Prop :=
| scan_merged (l : list Box) :
    merge_step thr boxes l -> scan_result thr boxes (Ok (Some l))
| scan_nothing : scan_result thr boxes (Ok None)
| scan_failed (i j : nat) (b1 b2 : Box) :
    (i < j)%nat -> boxes !! i = Some b1 -> boxes !! j = Some b2 ->
    YOLO.same_row b1 b2 = true -> py_min (area b1) (area b2) == 0 ->
    scan_result thr boxes (Raise ZeroDivisionError).

(** The two ways the outer loop can end: on a list reached by merges in
    which a pass finds nothing, or by a division by zero at a pair of one
    row of a list reached by merges. *)
Inductive merge_result (thr : Q) (boxes : list Box)
  : outcome (list Box) -> Prop :=
| merge_returned (out : list Box) :
    merges thr boxes out -> YOLO.pass thr out = Ok None ->
    merge_result thr boxes (Ok out)
| merge_failed (l : list Box) (i j : nat) (b1 b2 : Box) :
    merges thr boxes l ->
    (i < j)%nat -> l !! i = Some b1 -> l !! j = Some b2 ->
    YOLO.same_row b1 b2 = true -> py_min (area b1) (area b2) == 0 ->
    merge_result thr boxes (Raise ZeroDivisionError).

(** Every coordinate of [o] is that coordinate of some box of [boxes]. *)
Definition coordinates_from (boxes : list Box) (o : Box) : Prop :=
  (exists a, a ∈ boxes /\ x1 o = x1 a) /\
  (exists a, a ∈ boxes /\ y1 o = y1 a) /\
  (exists a, a ∈ boxes /\ x2 o = x2 a) /\
  (exists a, a ∈ boxes /\ y2 o = y2 a).

(** An integer box as a box of the pipeline. *)
Definition zbox_box (o : ZBox) : Box :=
  box (zx1 o) (zy1 o) (zx2 o) (zy2 o).

(** [out] is the bounding rectangle of the pixels [P], or [b] when there
    is no such pixel: it holds every pixel of [P]; and either each of its
    four sides holds one, or [P] is empty and [out] is [b]. *)
Definition bounding_box_or (P : Z -> Z -> Prop) (b out : ZBox) : Prop :=
  (forall x y, P x y ->
     (zx1 out <= x < zx2 out)%Z /\ (zy1 out <= y < zy2 out)%Z) /\
  (((exists y, P (zx1 out) y) /\ (exists y, P (zx2 out - 1)%Z y) /\
    (exists x, P x (zy1 out)) /\ (exists x, P x (zy2 out - 1)%Z)) \/
   (out = b /\ forall x y, ~ P x y)).

(** Content box [c] with index [t] counts for the panel: its index is
    among the associated indices [A], or it overlaps the panel within 5
    pixels. *)
Definition qualifies (panel_box : list Q) (A : list Z) (t : nat)
  (c : list Q) : Prop :=
  Z.of_nat t ∈ A \/ Magi.boxes_overlap panel_box c 5 = Ok true.

(** [v] is coordinate [n] of a content box of [texts], numbered from
    [t_idx], that counts for the panel. *)
Definition from_text (panel_box : list Q) (A : list Z) (t_idx : nat)
  (texts : list (list Q)) (n : nat) (v : Q) : Prop :=
  exists (j : nat) c,
    texts !! j = Some c /\ qualifies panel_box A (t_idx + j) c /\
    c !! n = Some v.

(** Each of the corners [acc'] is the corner of [acc] or comes from a
    content box that counts for the panel. *)
Definition corner_sources (panel_box : list Q) (A : list Z) (t_idx : nat)
  (texts : list (list Q)) (acc acc' : Q * Q * Q * Q) : Prop :=
  let '(a1, a2, a3, a4) := acc in
  let '(b1, b2, b3, b4) := acc' in
  (b1 = a1 \/ from_text panel_box A t_idx texts 0 b1) /\
  (b2 = a2 \/ from_text panel_box A t_idx texts 1 b2) /\
  (b3 = a3 \/ from_text panel_box A t_idx texts 2 b3) /\
  (b4 = a4 \/ from_text panel_box A t_idx texts 3 b4).

(** Content box [j] counts for panel [i] of the detection result. *)
Definition counts_for (res : Magi.detections) (i : nat) (panel_box : list Q)
  (j : nat) (c : list Q) : Prop :=
  (Z.of_nat i, Z.of_nat j) ∈ Magi.associations res \/
  Magi.boxes_overlap panel_box c 5 = Ok true.

(** The integer [z] is [int] of coordinate [n] of a content box that
    counts for panel [i]. *)
Definition corner_from (res : Magi.detections) (i : nat) (panel_box : list Q)
  (n : nat) (z : Z) : Prop :=
  exists (j : nat) c v,
    Magi.texts res !! j = Some c /\ counts_for res i panel_box j c /\
    c !! n = Some v /\ z = py_int v.

(** * Sample inputs *)

(** Scenario A of the specification. *)
Definition scenario_A : list Box := [box 0 0 10 10; box 5 5 15 15].

(** A zero-width box on the row of an upright one. *)
Definition zero_width_pair : list Box := [box 5 0 5 10; box 0 0 10 10].

(** Three boxes with positive areas: the first two merge, the third is
    far away on the same row. *)
Definition three_boxes : list Box :=
  [box 0 0 10 10; box 3 4 15 14; box 100 0 110 10].

(** A tall box, a short box beside it, and further right a box that
    starts below the short one but well above the bottom of the tall one;
    sorted by [y1], and no two of them overlap. *)
Definition tall_first : list Box :=
  [box 0 0 10 100; box 20 10 30 20; box 40 50 50 60].

(** Four boxes in a 2x2 grid: top-left, top-right, bottom-left,
    bottom-right. *)
Definition grid : list Box :=
  [box 0 0 10 10; box 20 0 30 10; box 0 20 10 30; box 20 20 30 30].

(** A 4x4 image, white but for three ink pixels in the middle. *)
Definition small_page : image :=
  [[255; 255; 255; 255];
   [255;   0;   0; 255];
   [255; 255; 100; 255];
   [255; 255; 255; 255]]%Z.

(** One panel and no content box; the association names content box 7. *)
Definition dangling_association : Magi.detections :=
  Magi.mkDetections [[0; 0; 10; 10]] [] [(0, 7)%Z].

(** One panel and one associated content box that ends half a pixel to
    the right of the panel. *)
Definition half_pixel_bubble : Magi.detections :=
  Magi.mkDetections [[0; 0; 10; 10]] [[2; 2; 21 # 2; 8]] [(0, 0)%Z].

(** The result of the merger on [three_boxes]. *)
Definition three_boxes_out : list Box := [box 0 0 15 14; box 100 0 110 10].

(** Two boxes of zero area on different rows. *)
Definition flat_boxes : list Box := [box 0 0 0 0; box 5 20 5 30].

(** [small_page] with other rows above and below the middle. *)
Definition other_page : image :=
  [[  0;   0;   0;   0];
   [255;   0;   0; 255];
   [255; 255; 100; 255];
   []]%Z.

(** A panel, a content box that touches it from the right and a content
    box far below that the model associates with it. *)
Definition two_bubbles : Magi.detections :=
  Magi.mkDetections [[0; 0; 100; 100]]
    [[90; 40; 120; 60]; [10; 300; 20; 310]] [(0, 1)%Z].

(** [two_bubbles] without the association. *)
Definition two_bubbles_unlinked : Magi.detections :=
  Magi.mkDetections [[0; 0; 100; 100]]
    [[90; 40; 120; 60]; [10; 300; 20; 310]] [].

(** [two_bubbles] with the association given twice and a malformed one. *)
Definition two_bubbles_repeated : Magi.detections :=
  Magi.mkDetections [[0; 0; 100; 100]]
    [[90; 40; 120; 60]; [10; 300; 20; 310]] [(0, 1)%Z; (3, 0)%Z; (0, 1)%Z].

(** A panel and a content box far away, not associated. *)
Definition lonely_panel : Magi.detections :=
  Magi.mkDetections [[0; 0; 100; 100]] [[200; 200; 220; 220]] [].

(** A panel with three coordinates after a well-formed one. *)
Definition short_panel : Magi.detections :=
  Magi.mkDetections [[0; 0; 100; 100]; [0; 0; 100]] [[90; 40; 120; 60]] [].

(** * Properties *)

(** ** Comparisons, minimum and maximum *)

Lemma Qltb_lt (x y : Q) : Qltb x y = true <-> x < y.
Proof.
  unfold Qltb. rewrite negb_true_iff, <- not_true_iff_false, Qle_bool_iff.
  split; [apply Qnot_le_lt | apply Qlt_not_le].
Qed.

Lemma Qltb_ge (x y : Q) : Qltb x y = false <-> y <= x.
Proof.
  unfold Qltb. rewrite negb_false_iff. apply Qle_bool_iff.
Qed.

Lemma py_min_spec (a b : Q) :
  (b < a /\ py_min a b = b) \/ (a <= b /\ py_min a b = a).
Proof.
  unfold py_min. destruct (Qltb b a) eqn:E.
  - left. split; [by apply Qltb_lt | done].
  - right. split; [by apply Qltb_ge | done].
Qed.

Lemma py_max_spec (a b : Q) :
  (a < b /\ py_max a b = b) \/ (b <= a /\ py_max a b = a).
Proof.
  unfold py_max. destruct (Qltb a b) eqn:E.
  - left. split; [by apply Qltb_lt | done].
  - right. split; [by apply Qltb_ge | done].
Qed.

(** Case analysis on every [py_min] and [py_max] at hand. *)
Ltac py_cases :=
  repeat match goal with
  | |- context [py_min ?a ?b] =>
    let H := fresh in let E := fresh in
    destruct (py_min_spec a b) as [[H E] | [H E]]; rewrite E in *; clear E
  | _ : context [py_min ?a ?b] |- _ =>
    let H := fresh in let E := fresh in
    destruct (py_min_spec a b) as [[H E] | [H E]]; rewrite E in *; clear E
  | |- context [py_max ?a ?b] =>
    let H := fresh in let E := fresh in
    destruct (py_max_spec a b) as [[H E] | [H E]]; rewrite E in *; clear E
  | _ : context [py_max ?a ?b] |- _ =>
    let H := fresh in let E := fresh in
    destruct (py_max_spec a b) as [[H E] | [H E]]; rewrite E in *; clear E
  end.

Lemma contained_refl (b : Box) : contained b b.
Proof. unfold contained. repeat split; apply Qle_refl. Qed.

Lemma contained_trans (a b c : Box) :
  contained a b -> contained b c -> contained a c.
Proof. unfold contained. intros (?&?&?&?) (?&?&?&?). repeat split; lra. Qed.

Section RowMerger.
Import YOLO.

Lemma merge_boxes_contains_l (a b : Box) : contained a (merge_boxes a b).
Proof. unfold contained, merge_boxes; simpl. py_cases; repeat split; lra. Qed.

Lemma merge_boxes_contains_r (a b : Box) : contained b (merge_boxes a b).
Proof. unfold contained, merge_boxes; simpl. py_cases; repeat split; lra. Qed.

(** The vertical overlap is at most the height of either box. *)
Lemma y_overlap_le_min_height (a b : Box) : y_overlap a b <= min_height a b.
Proof. unfold y_overlap, min_height. py_cases; lra. Qed.

Lemma same_row_heights (a b : Box) :
  same_row a b = true -> y1 a < y2 a /\ y1 b < y2 b.
Proof.
  unfold same_row. rewrite Qltb_lt. intros H.
  pose proof (y_overlap_le_min_height a b) as Hle.
  unfold min_height in *. py_cases; lra.
Qed.

Lemma merge_test_same_row thr (a b : Box) :
  merge_test thr a b = Ok true -> same_row a b = true.
Proof. unfold merge_test. by destruct (same_row a b). Qed.

Lemma positive_area_min (a b : Box) :
  positive_area a -> positive_area b -> 0 < py_min (area a) (area b).
Proof. unfold positive_area. intros. py_cases; lra. Qed.

(** With positive areas the divisor is not zero. *)
Lemma overlap_ratio_defined (a b : Box) :
  positive_area a -> positive_area b ->
  overlap_ratio a b = Ok (overlap_area a b / py_min (area a) (area b)).
Proof.
  intros Ha Hb. unfold overlap_ratio; simpl.
  destruct (Qeq_bool _ 0) eqn:E; [| done].
  apply Qeq_bool_eq in E. pose proof (positive_area_min a b Ha Hb). lra.
Qed.

Lemma merge_test_defined thr (a b : Box) :
  positive_area a -> positive_area b ->
  merge_test thr a b
  = Ok (same_row a b
        && Qltb thr (overlap_area a b / py_min (area a) (area b))).
Proof.
  intros Ha Hb. unfold merge_test.
  destruct (same_row a b); [| done].
  by rewrite overlap_ratio_defined.
Qed.

Lemma merge_test_mergeable thr (a b : Box) :
  positive_area a -> positive_area b ->
  (merge_test thr a b = Ok true <-> mergeable thr a b) /\
  (merge_test thr a b = Ok false <-> ~ mergeable thr a b).
Proof.
  intros Ha Hb. rewrite merge_test_defined by done. unfold mergeable.
  destruct (same_row a b); simpl;
    [ destruct (Qltb thr _) eqn:E; [apply Qltb_lt in E | apply Qltb_ge in E] |];
    (split; split; intros H; try done; try (by destruct H);
     try (destruct H; lra); try (exfalso; apply H; by split)).
Qed.

(** The union of two boxes of one row with positive areas has a positive
    area: both are upright, and the union is at least as wide and high. *)
Lemma merge_boxes_positive (a b : Box) :
  positive_area a -> positive_area b -> same_row a b = true ->
  positive_area (merge_boxes a b).
Proof.
  unfold positive_area, area. intros Ha Hb Hrow.
  destruct (same_row_heights a b Hrow) as [Hha Hhb].
  assert (x1 a < x2 a) as Hwa by nra.
  unfold merge_boxes; simpl.
  assert (0 < py_max (x2 a) (x2 b) - py_min (x1 a) (x1 b)) by (py_cases; lra).
  assert (0 < py_max (y2 a) (y2 b) - py_min (y1 a) (y1 b)) by (py_cases; lra).
  nra.
Qed.

(** *** One merge *)

Lemma merge_step_length thr (l l' : list Box) :
  merge_step thr l l' -> S (length l') = length l.
Proof.
  intros [i j b1 b2 Hij Hi Hj _].
  apply lookup_lt_Some in Hj as Hlt.
  rewrite length_delete, length_insert; [lia |].
  apply lookup_lt_is_Some. by rewrite length_insert.
Qed.

Lemma merge_step_positive thr (l l' : list Box) :
  Forall positive_area l -> merge_step thr l l' -> Forall positive_area l'.
Proof.
  intros Hall [i j b1 b2 Hij Hi Hj Ht].
  apply Forall_delete, Forall_insert; [done |].
  apply merge_boxes_positive.
  - eapply Forall_lookup_1; eauto.
  - eapply Forall_lookup_1; eauto.
  - by eapply merge_test_same_row.
Qed.

Lemma merge_step_covers thr (l l' : list Box) :
  merge_step thr l l' -> covers l' l.
Proof.
  intros [i j b1 b2 Hij Hi Hj _] b Hb.
  apply list_elem_of_lookup in Hb as [k Hk].
  apply lookup_lt_Some in Hj as Hjlt.
  assert (delete j (<[i:=merge_boxes b1 b2]> l) !! i
          = Some (merge_boxes b1 b2)) as Hm.
  { rewrite list_lookup_delete_lt by done.
    apply list_lookup_insert_eq. lia. }
  destruct (decide (k = i)) as [-> | Hki].
  { exists (merge_boxes b1 b2). split; [by eapply list_elem_of_lookup_2 |].
    replace b with b1 by congruence. apply merge_boxes_contains_l. }
  destruct (decide (k = j)) as [-> | Hkj].
  { exists (merge_boxes b1 b2). split; [by eapply list_elem_of_lookup_2 |].
    replace b with b2 by congruence. apply merge_boxes_contains_r. }
  exists b. split; [| apply contained_refl].
  destruct (decide (k < j)%nat).
  - apply list_elem_of_lookup_2 with k.
    rewrite list_lookup_delete_lt by done.
    by rewrite list_lookup_insert_ne.
  - destruct k as [| k]; [lia |].
    apply list_elem_of_lookup_2 with k.
    rewrite list_lookup_delete_ge by lia.
    by rewrite list_lookup_insert_ne.
Qed.

Lemma covers_refl (l : list Box) : covers l l.
Proof. intros b Hb. exists b. split; [done | apply contained_refl]. Qed.

Lemma covers_trans (l1 l2 l3 : list Box) :
  covers l2 l1 -> covers l3 l2 -> covers l3 l1.
Proof.
  intros H12 H23 b Hb.
  destruct (H12 b Hb) as (o & Ho & Hbo).
  destruct (H23 o Ho) as (o' & Ho' & Hoo').
  exists o'. split; [done |]. by eapply contained_trans.
Qed.

(** *** The scan loops *)

Lemma scan_j_Some fuel thr (boxes boxes' : list Box) (i j : nat) :
  (i < j)%nat ->
  scan_j fuel thr boxes i j = Ok (Some boxes') -> merge_step thr boxes boxes'.
Proof.
  revert j. induction fuel as [| fuel IH]; intros j Hij; simpl; [done |].
  destruct (j <? length boxes)%nat; [| done].
  unfold getitem.
  destruct (boxes !! i) as [b1 |] eqn:Hi; [| done].
  destruct (boxes !! j) as [b2 |] eqn:Hj; [| done]. simpl.
  destruct (merge_test thr b1 b2) as [[|] | |] eqn:Ht; simpl; try done.
  - intros [= <-]. by econstructor.
  - apply IH. lia.
Qed.

Lemma scan_j_None fuel thr (boxes : list Box) (i j : nat) :
  scan_j fuel thr boxes i j = Ok None ->
  forall k b1 b2, (j <= k)%nat ->
    boxes !! i = Some b1 -> boxes !! k = Some b2 ->
    merge_test thr b1 b2 = Ok false.
Proof.
  revert j. induction fuel as [| fuel IH]; intros j; simpl; [done |].
  destruct (j <? length boxes)%nat eqn:Hlt.
  - unfold getitem.
    destruct (boxes !! i) as [c1 |] eqn:Hi; [| done].
    destruct (boxes !! j) as [c2 |] eqn:Hj; [| done]. simpl.
    destruct (merge_test thr c1 c2) as [[|] | |] eqn:Ht; simpl; try done.
    intros Hrec k b1 b2 Hjk Hb1 Hk.
    destruct (decide (k = j)) as [-> | Hne]; [congruence |].
    apply (IH (j + 1)%nat Hrec k b1 b2); [lia | congruence | done].
  - intros _ k b1 b2 Hjk _ Hk. apply Nat.ltb_ge in Hlt.
    apply lookup_lt_Some in Hk. lia.
Qed.

Lemma scan_j_total fuel thr (boxes : list Box) (i j : nat) :
  Forall positive_area boxes -> (i < j)%nat ->
  (length boxes - j < fuel)%nat ->
  exists r, scan_j fuel thr boxes i j = Ok r.
Proof.
  intros Hpos. revert j.
  induction fuel as [| fuel IH]; intros j Hij Hfuel; simpl; [lia |].
  destruct (j <? length boxes)%nat eqn:Hlt; [| by eexists].
  apply Nat.ltb_lt in Hlt. unfold getitem.
  destruct (lookup_lt_is_Some_2 boxes i) as [b1 Hi]; [lia |].
  destruct (lookup_lt_is_Some_2 boxes j) as [b2 Hj]; [lia |].
  rewrite Hi, Hj; simpl.
  rewrite merge_test_defined by (eapply Forall_lookup_1; eauto). simpl.
  destruct (_ && _); [by eexists |].
  apply IH; lia.
Qed.

Lemma scan_i_S fuel thr (boxes : list Box) (i : nat) :
  scan_i (S fuel) thr boxes i
  = if (i <? length boxes)%nat then
      r ← scan_j (S (length boxes)) thr boxes i (i + 1);
      match r with
      | Some boxes' => Ok (Some boxes')
      | None => scan_i fuel thr boxes (i + 1)
      end
    else Ok None.
Proof. reflexivity. Qed.

Lemma scan_i_Some fuel thr (boxes boxes' : list Box) (i : nat) :
  scan_i fuel thr boxes i = Ok (Some boxes') -> merge_step thr boxes boxes'.
Proof.
  revert i. induction fuel as [| fuel IH]; intros i; [done |].
  rewrite scan_i_S.
  destruct (i <? length boxes)%nat; [| done].
  destruct (scan_j _ thr boxes i (i + 1)) as [[l |] | |] eqn:Hj;
    simpl; try done.
  - intros [= <-]. eapply scan_j_Some; [| done]. lia.
  - apply IH.
Qed.

Lemma scan_i_None fuel thr (boxes : list Box) (i : nat) :
  scan_i fuel thr boxes i = Ok None ->
  forall i' j b1 b2, (i <= i')%nat -> (i' < j)%nat ->
    boxes !! i' = Some b1 -> boxes !! j = Some b2 ->
    merge_test thr b1 b2 = Ok false.
Proof.
  revert i. induction fuel as [| fuel IH]; intros i; [done |].
  rewrite scan_i_S.
  destruct (i <? length boxes)%nat eqn:Hlt.
  - destruct (scan_j _ thr boxes i (i + 1)) as [[l |] | |] eqn:Hj;
      simpl; try done.
    intros Hrec i' j b1 b2 Hii' Hi'j Hi' Hjb.
    destruct (decide (i' = i)) as [-> | Hne].
    + apply (scan_j_None _ _ _ _ _ Hj j b1 b2); [lia | done | done].
    + apply (IH (i + 1)%nat Hrec i' j b1 b2); [lia | done | done | done].
  - intros _ i' j b1 b2 Hii' _ Hi' _. apply Nat.ltb_ge in Hlt.
    apply lookup_lt_Some in Hi'. lia.
Qed.

Lemma scan_i_total fuel thr (boxes : list Box) (i : nat) :
  Forall positive_area boxes ->
  (length boxes - i < fuel)%nat ->
  exists r, scan_i fuel thr boxes i = Ok r.
Proof.
  intros Hpos. revert i.
  induction fuel as [| fuel IH]; intros i Hfuel; [simpl; lia |].
  rewrite scan_i_S.
  destruct (i <? length boxes)%nat eqn:Hlt; [| by eexists].
  apply Nat.ltb_lt in Hlt.
  destruct (scan_j_total (S (length boxes)) thr boxes i (i + 1) Hpos)
    as [r Hr]; [lia | lia |].
  rewrite Hr; simpl. destruct r; [by eexists |].
  apply IH; lia.
Qed.

(** *** One pass and the outer loop *)

Lemma pass_Some thr (boxes boxes' : list Box) :
  pass thr boxes = Ok (Some boxes') -> merge_step thr boxes boxes'.
Proof. apply scan_i_Some. Qed.

Lemma pass_None thr (boxes : list Box) :
  pass thr boxes = Ok None ->
  forall i j b1 b2, (i < j)%nat ->
    boxes !! i = Some b1 -> boxes !! j = Some b2 ->
    merge_test thr b1 b2 = Ok false.
Proof.
  intros H i j b1 b2. eapply scan_i_None; [done | lia].
Qed.

Lemma pass_total thr (boxes : list Box) :
  Forall positive_area boxes -> exists r, pass thr boxes = Ok r.
Proof. intros Hpos. apply scan_i_total; [done | lia]. Qed.

(** A pass finds nothing exactly when no pair passes both tests. *)
Lemma pass_None_iff thr (boxes : list Box) :
  Forall positive_area boxes ->
  pass thr boxes = Ok None <->
  (forall i j b1 b2, (i < j)%nat ->
     boxes !! i = Some b1 -> boxes !! j = Some b2 -> ~ mergeable thr b1 b2).
Proof.
  intros Hpos. split.
  - intros H i j b1 b2 Hij Hi Hj.
    destruct (merge_test_mergeable thr b1 b2) as [_ [Hf _]];
      [by eapply Forall_lookup_1 | by eapply Forall_lookup_1 |].
    apply Hf. by eapply pass_None.
  - intros Hno. destruct (pass_total thr boxes Hpos) as [[l |] Hr]; [| done].
    apply pass_Some in Hr as [i j b1 b2 Hij Hi Hj Ht].
    exfalso. apply (Hno i j b1 b2 Hij Hi Hj).
    destruct (merge_test_mergeable thr b1 b2) as [[Ht' _] _];
      [by eapply Forall_lookup_1 | by eapply Forall_lookup_1 |].
    by apply Ht'.
Qed.

Lemma merge_loop_exit fuel thr (boxes : list Box) :
  pass thr boxes = Ok None -> merge_loop (S fuel) thr boxes = Ok boxes.
Proof. intros H. simpl. by rewrite H. Qed.

(** With positive areas and fuel for one pass per box, the outer loop
    ends on a list in which a pass finds nothing. *)
Lemma merge_loop_total fuel thr (boxes : list Box) :
  Forall positive_area boxes ->
  (1 <= length boxes <= fuel)%nat ->
  exists out,
    merge_loop fuel thr boxes = Ok out /\
    pass thr out = Ok None /\
    covers out boxes /\
    Forall positive_area out /\
    (1 <= length out <= length boxes)%nat.
Proof.
  revert boxes. induction fuel as [| fuel IH]; intros boxes Hpos Hlen; [lia |].
  simpl. destruct (pass_total thr boxes Hpos) as [[l |] Hr]; rewrite Hr; simpl.
  - apply pass_Some in Hr.
    pose proof (merge_step_length _ _ _ Hr) as Hl.
    assert (1 <= length l)%nat.
    { destruct Hr as [i j b1 b2 Hij Hi Hj _].
      apply lookup_lt_Some in Hj.
      rewrite length_delete, length_insert in Hl |- *; try lia;
        apply lookup_lt_is_Some; by rewrite length_insert. }
    destruct (IH l) as (out & Hout & Hfix & Hcov & Hpos' & Hlen');
      [by eapply merge_step_positive | lia |].
    exists out. repeat split; try done; try lia.
    eapply covers_trans; [by eapply merge_step_covers | done].
  - exists boxes. repeat split; try done; try lia. apply covers_refl.
Qed.

(** More fuel does not change the result. *)
Lemma merge_loop_fuel fuel fuel' thr (boxes out : list Box) :
  merge_loop fuel thr boxes = Ok out -> (fuel <= fuel')%nat ->
  merge_loop fuel' thr boxes = Ok out.
Proof.
  revert fuel' boxes.
  induction fuel as [| fuel IH]; intros fuel' boxes; simpl; [done |].
  intros H Hle. destruct fuel' as [| fuel']; [lia |]. simpl.
  destruct (pass thr boxes) as [[l |] | |]; simpl in *; try done.
  apply IH; [done | lia].
Qed.

(** The result of the merger, for positive areas. *)
Lemma merge_overlapping_boxes_total thr (boxes : list Box) :
  Forall positive_area boxes ->
  exists out,
    merge_overlapping_boxes boxes thr = Ok out /\
    ((length out <= 1)%nat \/ pass thr out = Ok None) /\
    covers out boxes /\
    Forall positive_area out /\
    (length out <= length boxes)%nat.
Proof.
  intros Hpos. unfold merge_overlapping_boxes.
  destruct (length boxes <=? 1)%nat eqn:Hlen.
  - apply Nat.leb_le in Hlen. exists boxes.
    repeat split; auto using covers_refl.
  - apply Nat.leb_gt in Hlen.
    destruct (merge_loop_total (length boxes) thr boxes Hpos)
      as (out & Hout & Hfix & Hcov & Hpos' & Hlen'); [lia |].
    exists out. repeat split; auto. lia.
Qed.

(** *** Runs of the outer loop *)

Lemma merge_loop_continue fuel thr (l l' : list Box) :
  pass thr l = Ok (Some l') ->
  merge_loop (S fuel) thr l = merge_loop fuel thr l'.
Proof.
  intros H. change (merge_loop (S fuel) thr l)
    with (r ← pass thr l;
          match r with
          | Some boxes' => merge_loop fuel thr boxes'
          | None => Ok l
          end).
  by rewrite H.
Qed.

Lemma passes_end thr (l out : list Box) (n : nat) :
  passes thr l n out -> pass thr out = Ok None.
Proof. by induction 1. Qed.

Lemma passes_length thr (l out : list Box) (n : nat) :
  passes thr l n out -> (n + length out)%nat = length l.
Proof.
  induction 1 as [l Hp | l l' n out Hp Hrest IH]; [done |].
  apply pass_Some, merge_step_length in Hp. lia.
Qed.

(** With positive areas and fuel for one pass per box, the outer loop
    makes a run of merging passes and returns at the pass that finds
    nothing. *)
Lemma merge_loop_passes fuel thr (boxes : list Box) :
  Forall positive_area boxes ->
  (1 <= length boxes <= fuel)%nat ->
  exists out n,
    merge_loop fuel thr boxes = Ok out /\
    passes thr boxes n out /\
    Forall positive_area out.
Proof.
  revert boxes. induction fuel as [| fuel IH]; intros boxes Hpos Hlen; [lia |].
  destruct (pass_total thr boxes Hpos) as [[l |] Hr].
  - rewrite (merge_loop_continue _ _ _ _ Hr).
    pose proof (pass_Some _ _ _ Hr) as Hstep.
    pose proof (merge_step_length _ _ _ Hstep) as Hl.
    assert (1 <= length l)%nat.
    { destruct Hstep as [i j b1 b2 Hij Hi Hj _].
      apply lookup_lt_Some in Hj.
      rewrite length_delete, length_insert in Hl |- *; try lia;
        apply lookup_lt_is_Some; by rewrite length_insert. }
    destruct (IH l) as (out & n & Hout & Hrun & Hpos');
      [by eapply merge_step_positive | lia |].
    exists out, (S n). split; [done |]. split; [| done].
    by econstructor.
  - rewrite (merge_loop_exit _ _ _ Hr). exists boxes, 0%nat.
    split; [done |]. split; [by constructor | done].
Qed.

(** The first two of [three_boxes] merge, the third stays. *)
Example three_boxes_merged :
  merge_overlapping_boxes three_boxes (3 # 10)
  = Ok [box 0 0 15 14; box 100 0 110 10].
Proof. by vm_compute. Qed.

(** *** The claims on the row merger *)

(** C1, as amended.  On the two boxes [[0,0,10,10]] and [[5,5,15,15]] with
    [overlap_threshold = 0.3] the merger returns the two boxes unchanged:
    the vertical overlap [5] does not exceed [0.5 * min_height = 5], so the
    pair fails the same-row test; the overlap ratio would be [25/100]. *)
Theorem scenario_A_unchanged :
  merge_overlapping_boxes scenario_A (3 # 10) = Ok scenario_A /\
  same_row (box 0 0 10 10) (box 5 5 15 15) = false /\
  y_overlap (box 0 0 10 10) (box 5 5 15 15) == 5 /\
  min_height (box 0 0 10 10) (box 5 5 15 15) * (5 # 10) == 5 /\
  overlap_ratio (box 0 0 10 10) (box 5 5 15 15) = Ok (25 # 100) /\
  Qltb (3 # 10) (25 # 100) = false.
Proof. vm_compute. repeat split. Qed.

(** C1, as stated, fails: the result is not the single box [[0,0,15,15]]. *)
Lemma scenario_A_not_merged :
  merge_overlapping_boxes scenario_A (3 # 10) <> Ok [box 0 0 15 15].
Proof. vm_compute. discriminate. Qed.

(** C3.  A zero-width box with positive height passes the same-row test
    against an upright box of its row; the ratio is then divided by
    [min(area1, area2) = 0] and the merger raises. *)
Theorem zero_width_pair_raises :
  Forall (fun b => x1 b <= x2 b /\ y1 b <= y2 b) zero_width_pair /\
  same_row (box 5 0 5 10) (box 0 0 10 10) = true /\
  py_min (area (box 5 0 5 10)) (area (box 0 0 10 10)) == 0 /\
  merge_overlapping_boxes zero_width_pair (3 # 10) = Raise ZeroDivisionError.
Proof.
  split; [| vm_compute; repeat split].
  repeat constructor; vm_compute; discriminate.
Qed.

(** C6.  For boxes with positive areas the merger returns a list, and run
    on that list with the same threshold it returns it unchanged. *)
Theorem merge_overlapping_boxes_idempotent (boxes : list Box) (thr : Q) :
  Forall positive_area boxes ->
  exists out,
    merge_overlapping_boxes boxes thr = Ok out /\
    merge_overlapping_boxes out thr = Ok out.
Proof.
  intros Hpos.
  destruct (merge_overlapping_boxes_total thr boxes Hpos)
    as (out & Hout & Hfix & _).
  exists out. split; [done |]. unfold merge_overlapping_boxes.
  destruct (length out <=? 1)%nat eqn:E; [done |].
  apply Nat.leb_gt in E. destruct Hfix as [Hle | Hfix]; [lia |].
  destruct (length out); [lia |]. by apply merge_loop_exit.
Qed.

Lemma merge_overlapping_boxes_idempotent_witness :
  Forall positive_area three_boxes /\
  exists out,
    merge_overlapping_boxes three_boxes (3 # 10) = Ok out /\
    merge_overlapping_boxes out (3 # 10) = Ok out.
Proof.
  assert (Forall positive_area three_boxes) as H
    by (repeat constructor; reflexivity).
  split; [exact H |].
  exact (merge_overlapping_boxes_idempotent three_boxes (3 # 10) H).
Defined.

(** C9.  For boxes with positive areas the merger returns a list.  A
    list of at most one box comes back at once.  On a longer list the
    outer loop makes a run of passes: every pass but the last merges one
    pair and hands the list, shorter by exactly one box, to the next
    pass, and the loop returns on the first pass that finds nothing, with
    the list of that pass, in which no pair passes both the same-row and
    the overlap-ratio test.  The merging passes are as many as the boxes
    that went, so one iteration per box is fuel enough, and more fuel
    changes nothing. *)
Theorem merge_overlapping_boxes_terminates (boxes : list Box) (thr : Q) :
  Forall positive_area boxes ->
  (exists out,
     merge_overlapping_boxes boxes thr = Ok out /\
     (((length boxes <= 1)%nat /\ out = boxes) \/
      ((1 < length boxes)%nat /\
       exists n, passes thr boxes n out /\
                 (n + length out)%nat = length boxes)) /\
     (forall (i j : nat) b1 b2, (i < j)%nat ->
        out !! i = Some b1 -> out !! j = Some b2 -> ~ mergeable thr b1 b2) /\
     (forall fuel, (1 <= fuel)%nat -> (length boxes <= fuel)%nat ->
        merge_loop fuel thr boxes = Ok out)) /\
  (forall l l', pass thr l = Ok (Some l') ->
     S (length l') = length l /\ merge_step thr l l') /\
  (forall l l' fuel, pass thr l = Ok (Some l') ->
     merge_loop (S fuel) thr l = merge_loop fuel thr l') /\
  (forall l fuel, pass thr l = Ok None -> merge_loop (S fuel) thr l = Ok l) /\
  (forall l, Forall positive_area l ->
     pass thr l = Ok None <->
     forall i j b1 b2, (i < j)%nat ->
       l !! i = Some b1 -> l !! j = Some b2 -> ~ mergeable thr b1 b2).
Proof.
  intros Hpos. split; [| split; [| split; [| split]]].
  - destruct (decide (length boxes <= 1)%nat) as [Hshort | Hlong].
    + exists boxes. split; [| split; [by left | split]].
      * unfold merge_overlapping_boxes.
        by destruct (length boxes <=? 1)%nat eqn:E;
          [| apply Nat.leb_gt in E; lia].
      * intros i j b1 b2 Hij Hi Hj.
        apply lookup_lt_Some in Hj. lia.
      * intros fuel Hfuel _.
        destruct fuel as [| fuel]; [lia |].
        apply merge_loop_exit. apply pass_None_iff; [done |].
        intros i j b1 b2 Hij Hi Hj. apply lookup_lt_Some in Hj. lia.
    + destruct (merge_loop_passes (length boxes) thr boxes Hpos)
        as (out & n & Hout & Hrun & Hpos'); [lia |].
      exists out. split; [| split; [right | split]].
      * unfold merge_overlapping_boxes.
        by destruct (length boxes <=? 1)%nat eqn:E;
          [apply Nat.leb_le in E; lia |].
      * split; [lia |]. exists n. split; [done |].
        by apply passes_length in Hrun.
      * apply pass_None_iff; [done |]. by eapply passes_end.
      * intros fuel _ Hfuel. by eapply merge_loop_fuel.
  - intros l l' H. apply pass_Some in H as Hstep.
    split; [by eapply merge_step_length | done].
  - intros l l' fuel H. by apply merge_loop_continue.
  - intros l fuel H. by apply merge_loop_exit.
  - intros l Hl. by apply pass_None_iff.
Qed.

Lemma merge_overlapping_boxes_terminates_witness :
  Forall positive_area three_boxes /\
  exists out,
    merge_overlapping_boxes three_boxes (3 # 10) = Ok out /\
    (((length three_boxes <= 1)%nat /\ out = three_boxes) \/
     ((1 < length three_boxes)%nat /\
      exists n, passes (3 # 10) three_boxes n out /\
                (n + length out)%nat = length three_boxes)) /\
    (forall (i j : nat) b1 b2, (i < j)%nat ->
       out !! i = Some b1 -> out !! j = Some b2 ->
       ~ mergeable (3 # 10) b1 b2) /\
    (forall fuel, (1 <= fuel)%nat -> (length three_boxes <= fuel)%nat ->
       merge_loop fuel (3 # 10) three_boxes = Ok out).
Proof.
  assert (Forall positive_area three_boxes) as H
    by (repeat constructor; reflexivity).
  split; [exact H |].
  exact (proj1 (merge_overlapping_boxes_terminates three_boxes (3 # 10) H)).
Defined.

(** C10.  For boxes with positive areas the merger returns a list, and
    every input box lies inside some box of it. *)
Theorem merge_overlapping_boxes_covers (boxes : list Box) (thr : Q) :
  Forall positive_area boxes ->
  exists out,
    merge_overlapping_boxes boxes thr = Ok out /\
    forall b, b ∈ boxes -> exists o, o ∈ out /\ contained b o.
Proof.
  intros Hpos.
  destruct (merge_overlapping_boxes_total thr boxes Hpos)
    as (out & Hout & _ & Hcov & _).
  by exists out.
Qed.

Lemma merge_overlapping_boxes_covers_witness :
  Forall positive_area three_boxes /\
  exists out,
    merge_overlapping_boxes three_boxes (3 # 10) = Ok out /\
    forall b, b ∈ three_boxes -> exists o, o ∈ out /\ contained b o.
Proof.
  assert (Forall positive_area three_boxes) as H
    by (repeat constructor; reflexivity).
  split; [exact H |].
  exact (merge_overlapping_boxes_covers three_boxes (3 # 10) H).
Defined.

End RowMerger.

Section Sorter.
Import YOLO.

(** *** Sorting *)

Lemma insert_by_perm {A} (key : A -> Q) (reverse : bool) (b : A) (l : list A) :
  insert_by key reverse b l ≡ₚ b :: l.
Proof.
  induction l as [| c l IH]; simpl; [done |].
  destruct (if reverse then _ else _); [| done].
  rewrite IH. apply Permutation_swap.
Qed.

Lemma py_sort_perm {A} (key : A -> Q) (reverse : bool) (l : list A) :
  py_sort key reverse l ≡ₚ l.
Proof.
  induction l as [| b l IH]; simpl; [done |].
  unfold py_sort in *. simpl. by rewrite insert_by_perm, IH.
Qed.

Lemma insert_by_sorted {A} (key : A -> Q) (reverse : bool) (b : A)
  (l : list A) :
  chain (in_order key reverse) l ->
  chain (in_order key reverse) (insert_by key reverse b l).
Proof.
  induction l as [| c l IH]; [done |]. intros Hl.
  cbn [insert_by].
  destruct (if reverse then Qltb (key b) (key c) else Qltb (key c) (key b))
    eqn:Htest.
  - assert (in_order key reverse c b) as Hcb.
    { unfold in_order. destruct reverse; apply Qltb_lt in Htest; lra. }
    assert (chain (in_order key reverse) l) as Hl'
      by (destruct l; [done | apply Hl]).
    specialize (IH Hl'). destruct l as [| d l]; [by split |].
    destruct Hl as [Hcd _]. cbn [insert_by] in *.
    destruct (if reverse then Qltb (key b) (key d) else Qltb (key d) (key b));
      by split.
  - split; [| done]. unfold in_order.
    destruct reverse; apply Qltb_ge in Htest; lra.
Qed.

(** The model of [sort] returns a sorted list. *)
Lemma py_sort_sorted {A} (key : A -> Q) (reverse : bool) (l : list A) :
  chain (in_order key reverse) (py_sort key reverse l).
Proof.
  induction l as [| b l IH]; [done |].
  unfold py_sort in *. simpl. by apply insert_by_sorted.
Qed.

(** *** Rows *)

Lemma chain_snoc {A} (R : A -> A -> Prop) (l : list A) (a b : A) :
  chain R (l ++ [a]) -> R a b -> chain R ((l ++ [a]) ++ [b]).
Proof.
  intros Hl Hab. induction l as [| x l IH]; simpl in *; [done |].
  destruct l as [| z l]; simpl in *.
  - destruct Hl. done.
  - destruct Hl as [Hxz Hl]. split; [done |]. by apply IH.
Qed.

(** Appending to the last row does not change how it follows the row
    before it. *)
Lemma chain_row_break_grow (clusters : list (list Box)) (c : list Box)
  (b : Box) :
  c <> [] -> chain row_break (clusters ++ [c]) ->
  chain row_break (clusters ++ [c ++ [b]]).
Proof.
  intros Hc. induction clusters as [| d clusters IH]; simpl; [done |].
  destruct clusters as [| e clusters]; simpl in *.
  - intros [(prev & x & Hprev & Hx & Hbrk) _]. split; [| done].
    exists prev, x. repeat split; try done.
    destruct c; [done |]. simpl in *. done.
  - intros [Hde Hrest]. split; [done |]. by apply IH.
Qed.

Lemma chain_row_break_new (clusters : list (list Box)) (c : list Box)
  (prev b : Box) :
  chain row_break (clusters ++ [c]) -> last c = Some prev ->
  starts_new_row b prev = true ->
  chain row_break ((clusters ++ [c]) ++ [[b]]).
Proof.
  intros Hch Hlast Hbrk. apply chain_snoc; [done |].
  by exists prev, b.
Qed.

(** The loop, from a current row that ends in [prev]. *)
Lemma cluster_loop_spec (rest : list Box) :
  forall (clusters : list (list Box)) (cur : list Box) (prev : Box),
    Forall row_ok clusters ->
    row_ok (cur ++ [prev]) ->
    chain row_break (clusters ++ [cur ++ [prev]]) ->
    exists cs,
      cluster_loop clusters (cur ++ [prev]) rest = Ok cs /\
      concat cs = concat clusters ++ (cur ++ [prev]) ++ rest /\
      Forall row_ok cs /\
      chain row_break cs.
Proof.
  induction rest as [| b rest IH]; intros clusters cur prev Hcl Hcur Hch.
  - simpl. eexists. split; [done |]. repeat split.
    + rewrite concat_app. simpl. by rewrite !app_nil_r.
    + apply Forall_app. split; [done |]. by constructor.
    + done.
  - simpl. unfold getitem_last. rewrite last_snoc. simpl.
    destruct (starts_new_row b prev) eqn:Hbrk.
    + destruct (IH (clusters ++ [cur ++ [prev]]) [] b)
        as (cs & Hcs & Hcat & Hok & Hbr).
      * apply Forall_app. split; [done |]. by constructor.
      * split; [done | simpl; done].
      * simpl. eapply chain_row_break_new; [done | apply last_snoc | done].
      * exists cs. split; [done |]. repeat split; try done.
        rewrite Hcat, concat_app. simpl. by rewrite app_nil_r, <- !app_assoc.
    + destruct (IH clusters (cur ++ [prev]) b)
        as (cs & Hcs & Hcat & Hok & Hbr).
      * done.
      * split; [by destruct cur |]. apply chain_snoc; [apply Hcur | done].
      * apply chain_row_break_grow; [by destruct cur | done].
      * exists cs. split; [done |]. repeat split; try done.
        rewrite Hcat. by rewrite <- !app_assoc.
Qed.

Lemma row_clusters_spec (boxes : list Box) :
  boxes <> [] ->
  exists clusters,
    row_clusters boxes = Ok clusters /\
    concat clusters = boxes /\
    Forall row_ok clusters /\
    chain row_break clusters.
Proof.
  destruct boxes as [| first rest]; [done |]. intros _.
  unfold row_clusters. simpl. rewrite drop_0.
  destruct (cluster_loop_spec rest [] [] first)
    as (cs & Hcs & Hcat & Hok & Hbr); try done.
  exists cs. by repeat split.
Qed.

Lemma extend_sorted_perm (rtl : bool) (clusters : list (list Box)) :
  extend_sorted rtl clusters ≡ₚ concat clusters.
Proof.
  unfold extend_sorted.
  assert (forall acc,
    foldl (fun sorted_panels cluster =>
             sorted_panels ++ py_sort x1 rtl cluster) acc clusters
    ≡ₚ acc ++ concat clusters) as H.
  { induction clusters as [| c cs IH]; intros acc; simpl.
    - by rewrite app_nil_r.
    - rewrite IH, <- app_assoc. by rewrite py_sort_perm. }
  apply (H []).
Qed.

Lemma reading_order_index (l : list ZBox) :
  index <$> reading_order l = Z.of_nat <$> seq 1 (length l).
Proof.
  unfold reading_order.
  assert (forall (k : nat),
    index <$> imap (fun i b => mkEntry (Z.of_nat (k + i) + 1) b) l
    = Z.of_nat <$> seq (S k) (length l)) as H.
  { induction l as [| b l IH]; intros k; simpl; [done |].
    f_equal; [f_equal; lia |].
    rewrite <- IH. f_equal. apply imap_ext. intros i x _. simpl.
    do 2 f_equal. lia. }
  apply (H 0%nat).
Qed.

Lemma shrink_all_length (img : image) (l : list Box) (final : list ZBox) :
  shrink_all img l = Ok final -> length final = length l.
Proof.
  revert final. induction l as [| b l IH]; intros final; simpl.
  - by intros [= <-].
  - destruct (shrink_wrap img b) as [o | |]; simpl; try done.
    destruct (shrink_all img l) as [rest | |]; simpl; try done.
    intros [= <-]. simpl. by rewrite (IH rest).
Qed.

Lemma xy_cut_sort_total (boxes : list Box) (rtl : bool) :
  exists ordered_boxes,
    xy_cut_sort boxes rtl = Ok ordered_boxes /\ ordered_boxes ≡ₚ boxes.
Proof.
  unfold xy_cut_sort. destruct (length boxes <=? 1)%nat eqn:E.
  - by exists boxes.
  - apply Nat.leb_gt in E.
    destruct (row_clusters_spec (py_sort y1 false boxes))
      as (clusters & Hcl & Hcat & _).
    { intros Hnil. pose proof (py_sort_perm y1 false boxes) as Hp.
      rewrite Hnil in Hp. apply Permutation_nil_l in Hp. subst.
      simpl in E. lia. }
    rewrite Hcl. simpl. eexists. split; [done |].
    by rewrite extend_sorted_perm, Hcat, py_sort_perm.
Qed.

(** Scenario C of the specification: the 2x2 grid, read from the left
    and from the right. *)
Example scenario_C_ltr :
  xy_cut_sort grid false
  = Ok [box 0 0 10 10; box 20 0 30 10; box 0 20 10 30; box 20 20 30 30].
Proof. by vm_compute. Qed.

Example scenario_C_rtl :
  xy_cut_sort grid true
  = Ok [box 20 0 30 10; box 0 0 10 10; box 20 20 30 30; box 0 20 10 30].
Proof. by vm_compute. Qed.

(** *** The claims on the sorter *)

(** C4, as amended.  In [xy_cut_sort] on more than one box, the row
    clustering of the boxes sorted by [y1] returns rows whose concatenation
    is the sorted list, and a new row is started exactly when the next
    box's [y1] exceeds [0.95] times the [y2] of the box placed just before
    it, the most recently added box of the current row: inside a row no
    box exceeds that bound ([row_ok]), and the first box of every further
    row exceeds it against the last box of the row before ([row_break]). *)
Theorem row_clusters_most_recent_box (boxes : list Box) (rtl : bool) :
  (1 < length boxes)%nat ->
  exists clusters,
    row_clusters (py_sort y1 false boxes) = Ok clusters /\
    xy_cut_sort boxes rtl = Ok (extend_sorted rtl clusters) /\
    concat clusters = py_sort y1 false boxes /\
    Forall row_ok clusters /\
    chain row_break clusters /\
    (forall b prev,
       starts_new_row b prev = true <-> y2 prev * (95 # 100) < y1 b).
Proof.
  intros Hlen.
  destruct (row_clusters_spec (py_sort y1 false boxes))
    as (clusters & Hcl & Hcat & Hok & Hbr).
  { intros Hnil. pose proof (py_sort_perm y1 false boxes) as Hp.
    rewrite Hnil in Hp. apply Permutation_nil_l in Hp. subst. simpl in Hlen.
    lia. }
  exists clusters. repeat split; try done.
  - unfold xy_cut_sort.
    destruct (length boxes <=? 1)%nat eqn:E; [apply Nat.leb_le in E; lia |].
    by rewrite Hcl.
  - by apply Qltb_lt.
  - by apply Qltb_lt.
Qed.

Lemma row_clusters_most_recent_box_witness :
  (1 < length tall_first)%nat /\
  exists clusters,
    row_clusters (py_sort y1 false tall_first) = Ok clusters /\
    xy_cut_sort tall_first false = Ok (extend_sorted false clusters) /\
    concat clusters = py_sort y1 false tall_first /\
    Forall row_ok clusters /\
    chain row_break clusters /\
    (forall b prev,
       starts_new_row b prev = true <-> y2 prev * (95 # 100) < y1 b).
Proof.
  assert (1 < length tall_first)%nat as H by (simpl; lia).
  split; [exact H |].
  exact (row_clusters_most_recent_box tall_first false H).
Defined.

(** C4, as stated, fails.  The merger leaves [tall_first] as it is, and
    the list is sorted by [y1].  The code starts a new row at the third box
    although its [y1 = 50] does not exceed [0.95] times the largest [y2] of
    the current row, [100]; the clustering by the running maximum keeps
    the three boxes in one row, and the reading order from right to left
    differs. *)
Lemma running_max_counterexample :
  merge_overlapping_boxes tall_first (3 # 10) = Ok tall_first /\
  py_sort y1 false tall_first = tall_first /\
  row_clusters tall_first
  = Ok [[box 0 0 10 100; box 20 10 30 20]; [box 40 50 50 60]] /\
  RunningMax.row_clusters tall_first = Ok [tall_first] /\
  ~ RunningMax.max_y2 (box 0 0 10 100) [box 20 10 30 20] * (95 # 100)
    < y1 (box 40 50 50 60) /\
  xy_cut_sort tall_first true
  = Ok [box 20 10 30 20; box 0 0 10 100; box 40 50 50 60] /\
  extend_sorted true [tall_first]
  = [box 40 50 50 60; box 20 10 30 20; box 0 0 10 100].
Proof.
  split; [by vm_compute |].
  split; [by vm_compute |].
  split; [by vm_compute |].
  split; [by vm_compute |].
  split; [vm_compute; discriminate |].
  split; by vm_compute.
Qed.

(** C7.  [xy_cut_sort] returns a list for every input and either
    direction, and the list is a permutation of the input.  The indices
    that [main] then gives to the boxes are [1, 2, ..., len(boxes)]: the
    loop that shrink-wraps the ordered boxes, on any image, returns one
    box per ordered box when it returns, and [enumerate] numbers every
    list of that length from 1. *)
Theorem xy_cut_sort_permutation (boxes : list Box) (rtl : bool) :
  exists ordered_boxes,
    xy_cut_sort boxes rtl = Ok ordered_boxes /\
    ordered_boxes ≡ₚ boxes /\
    (forall final_output_boxes,
       length final_output_boxes = length ordered_boxes ->
       index <$> reading_order final_output_boxes
       = Z.of_nat <$> seq 1 (length boxes)) /\
    (forall full_img_gray final_output_boxes,
       shrink_all full_img_gray ordered_boxes = Ok final_output_boxes ->
       length final_output_boxes = length ordered_boxes /\
       index <$> reading_order final_output_boxes
       = Z.of_nat <$> seq 1 (length boxes)).
Proof.
  destruct (xy_cut_sort_total boxes rtl) as (ordered & Hrun & Hperm).
  exists ordered. split; [done |]. split; [done |].
  assert (forall final, length final = length ordered ->
            index <$> reading_order final
            = Z.of_nat <$> seq 1 (length boxes)) as Hidx.
  { intros final Hlen.
    by rewrite reading_order_index, Hlen, (Permutation_length Hperm). }
  split; [exact Hidx |].
  intros img final Hfinal.
  pose proof (shrink_all_length img ordered final Hfinal) as Hlen.
  split; [done | by apply Hidx].
Qed.

End Sorter.

Section ShrinkWrapper.
Import YOLO.
Local Open Scope Z_scope.

(** *** Slices and crops *)

Lemma py_slice_lookup {A} (lo hi : Z) (l : list A) (k : nat) (v : A) :
  0 <= lo <= hi ->
  py_slice lo hi l !! k = Some v <->
  l !! (Z.to_nat lo + k)%nat = Some v /\ lo + Z.of_nat k < hi.
Proof.
  intros Hlo. unfold py_slice, slice_bound.
  destruct (lo <? 0) eqn:E1; [apply Z.ltb_lt in E1; lia |].
  destruct (hi <? 0) eqn:E2; [apply Z.ltb_lt in E2; lia |].
  rewrite lookup_take_Some, lookup_drop. split.
  - intros [Hv Hk]. apply lookup_lt_Some in Hv as Hlt.
    assert (Z.to_nat (Z.min lo (Z.of_nat (length l))) = Z.to_nat lo) as Heq
      by lia.
    rewrite Heq in Hv. split; [done | lia].
  - intros [Hv Hk]. apply lookup_lt_Some in Hv as Hlt.
    assert (Z.to_nat (Z.min lo (Z.of_nat (length l))) = Z.to_nat lo) as Heq
      by lia.
    rewrite Heq. split; [done | lia].
Qed.

(** A pixel of the crop is the pixel of the image at the crop offset. *)
Lemma crop_lookup (img : image) (X1 Y1 X2 Y2 : Z) (r k : nat) (v : Z) :
  0 <= X1 <= X2 -> 0 <= Y1 <= Y2 ->
  (exists row, crop img X1 Y1 X2 Y2 !! r = Some row /\ row !! k = Some v) <->
  (Y1 + Z.of_nat r < Y2 /\ X1 + Z.of_nat k < X2 /\
   exists row, img !! (Z.to_nat Y1 + r)%nat = Some row /\
               row !! (Z.to_nat X1 + k)%nat = Some v).
Proof.
  intros HX HY. unfold crop. split.
  - intros (row' & Hrow' & Hv).
    apply list_lookup_fmap_Some in Hrow' as (row & -> & Hrow).
    apply py_slice_lookup in Hrow as [Hrow Hr]; [| done].
    apply py_slice_lookup in Hv as [Hv Hk]; [| done].
    repeat split; try done. by exists row.
  - intros (Hr & Hk & row & Hrow & Hv).
    exists (py_slice X1 X2 row). split.
    + apply list_lookup_fmap_Some. exists row. split; [done |].
      by apply py_slice_lookup.
    + by apply py_slice_lookup.
Qed.

(** *** The points that are not zero *)

Lemma row_points_iff (row : list Z) (y x0 x y' : Z) :
  (x, y') ∈ row_points y x0 row <->
  y' = y /\ exists (k : nat) v,
    row !! k = Some v /\ v <> 0 /\ x = x0 + Z.of_nat k.
Proof.
  revert x0. induction row as [| v row IH]; intros x0; simpl.
  - split; [by intros ?%elem_of_nil | by intros (_ & k & w & ? & _)].
  - assert ((x, y') ∈ row_points y (x0 + 1) row <->
            y' = y /\ exists (k : nat) w,
              (v :: row) !! S k = Some w /\ w <> 0 /\
              x = x0 + Z.of_nat (S k)) as Htail.
    { rewrite IH. split; intros (-> & k & w & Hk & Hw & ->);
        (split; [done |]); exists k, w; repeat split; try done; lia. }
    destruct (v =? 0) eqn:E.
    + apply Z.eqb_eq in E as ->. rewrite Htail.
      split; intros (-> & k & w & Hk & Hw & ->).
      * split; [done |]. by exists (S k), w.
      * split; [done |]. destruct k as [| k]; [simpl in Hk; congruence |].
        by exists k, w.
    + apply Z.eqb_neq in E. rewrite elem_of_cons, Htail. split.
      * intros [[= -> ->] | (-> & k & w & Hk & Hw & ->)].
        -- split; [done |]. exists 0%nat, v. repeat split; try done. lia.
        -- split; [done |]. by exists (S k), w.
      * intros (-> & k & w & Hk & Hw & ->).
        destruct k as [| k].
        -- left. f_equal. lia.
        -- right. split; [done |]. by exists k, w.
Qed.

Lemma image_points_iff (img : image) (y0 x y : Z) :
  (x, y) ∈ image_points y0 img <->
  exists (r k : nat) row v,
    img !! r = Some row /\ row !! k = Some v /\ v <> 0 /\
    x = Z.of_nat k /\ y = y0 + Z.of_nat r.
Proof.
  revert y0. induction img as [| row img IH]; intros y0; simpl.
  - split; [by intros ?%elem_of_nil | by intros (r & k & ? & ? & ? & _)].
  - rewrite elem_of_app, row_points_iff, IH. split.
    + intros [(-> & k & v & Hk & Hv & ->) | (r & k & row' & v & Hr & Hk & Hv & -> & ->)].
      * exists 0%nat, k, row, v. repeat split; try done; lia.
      * exists (S r), k, row', v. repeat split; try done; lia.
    + intros (r & k & row' & v & Hr & Hk & Hv & -> & ->).
      destruct r as [| r]; simpl in Hr.
      * left. injection Hr as ->. split; [lia |]. exists k, v.
        repeat split; try done.
      * right. exists r, k, row', v. repeat split; try done. lia.
Qed.

(** The points of the ink mask of a region are its pixels of intensity
    at most 245. *)
Lemma ink_mask_points (roi : image) (x y : Z) :
  (x, y) ∈ image_points 0 (threshold_binary_inv roi 245 255) <->
  exists (r k : nat) row v,
    roi !! r = Some row /\ row !! k = Some v /\ v <= 245 /\
    x = Z.of_nat k /\ y = Z.of_nat r.
Proof.
  rewrite image_points_iff. unfold threshold_binary_inv. split.
  - intros (r & k & row' & w & Hr & Hk & Hw & -> & ->).
    apply list_lookup_fmap_Some in Hr as (row & -> & Hr).
    apply list_lookup_fmap_Some in Hk as (v & -> & Hk).
    exists r, k, row, v. repeat split; try done.
    destruct (245 <? v) eqn:E; [done |]. apply Z.ltb_ge in E. lia.
  - intros (r & k & row & v & Hr & Hk & Hv & -> & ->).
    eexists r, k, _, _. split; [| split; [| split]].
    + apply list_lookup_fmap_Some. eexists. split; [done |]. exact Hr.
    + apply list_lookup_fmap_Some. eexists. split; [done |]. exact Hk.
    + destruct (245 <? v) eqn:E; [apply Z.ltb_lt in E; lia | done].
    + done.
Qed.

(** *** The bounding rectangle *)

Lemma foldr_min_spec (x : Z) (l : list Z) :
  (forall z, z ∈ x :: l -> foldr Z.min x l <= z) /\
  foldr Z.min x l ∈ x :: l.
Proof.
  induction l as [| a l [IHle IHin]]; simpl.
  - split; [| apply list_elem_of_here].
    intros z Hz. apply list_elem_of_singleton in Hz. lia.
  - split.
    + intros z Hz. apply elem_of_cons in Hz as [-> | Hz].
      * specialize (IHle x (list_elem_of_here _ _)). lia.
      * apply elem_of_cons in Hz as [-> | Hz]; [lia |].
        specialize (IHle z (list_elem_of_further _ _ _ Hz)). lia.
    + destruct (Z.min_spec a (foldr Z.min x l)) as [[_ ->] | [_ ->]].
      * apply list_elem_of_further, list_elem_of_here.
      * apply elem_of_cons in IHin as [-> | Hin].
        -- apply list_elem_of_here.
        -- by do 2 apply list_elem_of_further.
Qed.

Lemma foldr_max_spec (x : Z) (l : list Z) :
  (forall z, z ∈ x :: l -> z <= foldr Z.max x l) /\
  foldr Z.max x l ∈ x :: l.
Proof.
  induction l as [| a l [IHle IHin]]; simpl.
  - split; [| apply list_elem_of_here].
    intros z Hz. apply list_elem_of_singleton in Hz. lia.
  - split.
    + intros z Hz. apply elem_of_cons in Hz as [-> | Hz].
      * specialize (IHle x (list_elem_of_here _ _)). lia.
      * apply elem_of_cons in Hz as [-> | Hz]; [lia |].
        specialize (IHle z (list_elem_of_further _ _ _ Hz)). lia.
    + destruct (Z.max_spec a (foldr Z.max x l)) as [[_ ->] | [_ ->]].
      * apply elem_of_cons in IHin as [-> | Hin].
        -- apply list_elem_of_here.
        -- by do 2 apply list_elem_of_further.
      * apply list_elem_of_further, list_elem_of_here.
Qed.

(** The rectangle holds every point, and each of its four sides holds
    one. *)
Lemma boundingRect_spec (pts : list (Z * Z)) (rx ry rw rh : Z) :
  pts <> [] -> boundingRect pts = (rx, ry, rw, rh) ->
  (forall x y, (x, y) ∈ pts -> rx <= x < rx + rw /\ ry <= y < ry + rh) /\
  (exists y, (rx, y) ∈ pts) /\
  (exists y, (rx + rw - 1, y) ∈ pts) /\
  (exists x, (x, ry) ∈ pts) /\
  (exists x, (x, ry + rh - 1) ∈ pts).
Proof.
  destruct pts as [| [x0 y0] pts]; [done |]. intros _. simpl.
  intros [= <- <- <- <-].
  destruct (foldr_min_spec x0 (pts.*1)) as [Hxmin Hxmin_in].
  destruct (foldr_max_spec x0 (pts.*1)) as [Hxmax Hxmax_in].
  destruct (foldr_min_spec y0 (pts.*2)) as [Hymin Hymin_in].
  destruct (foldr_max_spec y0 (pts.*2)) as [Hymax Hymax_in].
  change (x0 :: pts.*1) with (((x0, y0) :: pts).*1) in *.
  change (y0 :: pts.*2) with (((x0, y0) :: pts).*2) in *.
  split; [| split; [| split; [| split]]].
  - intros x y Hin.
    assert (x ∈ ((x0, y0) :: pts).*1) as Hx
      by (apply list_elem_of_fmap; by exists (x, y)).
    assert (y ∈ ((x0, y0) :: pts).*2) as Hy
      by (apply list_elem_of_fmap; by exists (x, y)).
    specialize (Hxmin x Hx). specialize (Hxmax x Hx).
    specialize (Hymin y Hy). specialize (Hymax y Hy). lia.
  - apply list_elem_of_fmap in Hxmin_in as ([x y] & Hx & Hin).
    simpl in Hx. exists y. by rewrite Hx.
  - apply list_elem_of_fmap in Hxmax_in as ([x y] & Hx & Hin).
    simpl in Hx. exists y.
    replace (_ + _ - 1) with x by lia. done.
  - apply list_elem_of_fmap in Hymin_in as ([x y] & Hy & Hin).
    simpl in Hy. exists x. by rewrite Hy.
  - apply list_elem_of_fmap in Hymax_in as ([x y] & Hy & Hin).
    simpl in Hy. exists x.
    replace (_ + _ - 1) with y by lia. done.
Qed.

Lemma py_int_inject_Z (z : Z) : py_int (inject_Z z) = z.
Proof. unfold py_int, inject_Z. simpl. apply Z.quot_1_r. Qed.

(** The ink points of the crop are the ink pixels of the image inside the
    box, seen from the crop offset. *)
Lemma crop_ink_points (img : image) (X1 Y1 X2 Y2 x y : Z) :
  0 <= X1 <= X2 -> 0 <= Y1 <= Y2 ->
  (x, y) ∈ image_points 0
             (threshold_binary_inv (crop img X1 Y1 X2 Y2) 245 255) <->
  0 <= x /\ 0 <= y /\ ink_in img (mkZBox X1 Y1 X2 Y2) (X1 + x) (Y1 + y).
Proof.
  intros HX HY. rewrite ink_mask_points. unfold ink_in, ink_at; simpl. split.
  - intros (r & k & row' & v & Hr & Hk & Hv & -> & ->).
    destruct (proj1 (crop_lookup img X1 Y1 X2 Y2 r k v HX HY))
      as (Hrlt & Hklt & row & Hrow & Hpix); [by exists row' |].
    repeat split; try lia.
    exists row, v. repeat split; try done.
    + by replace (Z.to_nat (Y1 + Z.of_nat r)) with (Z.to_nat Y1 + r)%nat by lia.
    + by replace (Z.to_nat (X1 + Z.of_nat k)) with (Z.to_nat X1 + k)%nat by lia.
  - intros (Hx & Hy & HxX & HyY & _ & _ & row & v & Hrow & Hpix & Hv).
    replace (Z.to_nat (Y1 + y)) with (Z.to_nat Y1 + Z.to_nat y)%nat
      in Hrow by lia.
    replace (Z.to_nat (X1 + x)) with (Z.to_nat X1 + Z.to_nat x)%nat
      in Hpix by lia.
    destruct (proj2 (crop_lookup img X1 Y1 X2 Y2 (Z.to_nat y) (Z.to_nat x) v
                       HX HY)) as (row' & Hrow' & Hpix').
    { split; [lia |]. split; [lia |]. by exists row. }
    exists (Z.to_nat y), (Z.to_nat x), row', v.
    repeat split; try done; lia.
Qed.

(** *** Empty crops *)

Lemma concat_length_pos (l : image) :
  (0 < length (concat l))%nat <->
  exists (r k : nat) row v, l !! r = Some row /\ row !! k = Some v.
Proof.
  induction l as [| row l IH]; simpl.
  - split; [lia |]. by intros (r & k & row & v & Hr & _).
  - rewrite length_app. split.
    + intros Hlen. destruct row as [| v row].
      * destruct (proj1 IH) as (r & k & row' & v & Hr & Hk);
          [simpl in Hlen; lia |].
        by exists (S r), k, row', v.
      * by exists 0%nat, 0%nat, (v :: row), v.
    + intros (r & k & row' & v & Hr & Hk).
      destruct r as [| r]; simpl in Hr.
      * injection Hr as <-. apply lookup_lt_Some in Hk. lia.
      * assert (0 < length (concat l))%nat; [| lia].
        apply IH. by exists r, k, row', v.
Qed.

(** The crop has an element exactly when the box holds a pixel of the
    image. *)
Lemma crop_is_empty (img : image) (X1 Y1 X2 Y2 : Z) :
  0 <= X1 <= X2 -> 0 <= Y1 <= Y2 ->
  is_empty (crop img X1 Y1 X2 Y2) = false <->
  reaches img (mkZBox X1 Y1 X2 Y2).
Proof.
  intros HX HY. unfold is_empty, reaches, in_image; simpl.
  rewrite Nat.eqb_neq.
  assert (length (concat (crop img X1 Y1 X2 Y2)) <> 0%nat <->
          (0 < length (concat (crop img X1 Y1 X2 Y2)))%nat) as -> by lia.
  rewrite concat_length_pos. split.
  - intros (r & k & row' & v & Hr & Hk).
    destruct (proj1 (crop_lookup img X1 Y1 X2 Y2 r k v HX HY))
      as (Hrlt & Hklt & row & Hrow & Hpix); [by exists row' |].
    exists (X1 + Z.of_nat k), (Y1 + Z.of_nat r).
    split; [lia |]. split; [lia |]. split; [lia |]. split; [lia |].
    exists row, v.
    replace (Z.to_nat (Y1 + Z.of_nat r)) with (Z.to_nat Y1 + r)%nat by lia.
    replace (Z.to_nat (X1 + Z.of_nat k)) with (Z.to_nat X1 + k)%nat by lia.
    done.
  - intros (x & y & Hx & Hy & _ & _ & row & v & Hrow & Hpix).
    destruct (proj2 (crop_lookup img X1 Y1 X2 Y2
                       (Z.to_nat (y - Y1)) (Z.to_nat (x - X1)) v HX HY))
      as (row' & Hrow' & Hpix').
    { split; [lia |]. split; [lia |]. exists row.
      replace (Z.to_nat Y1 + Z.to_nat (y - Y1))%nat with (Z.to_nat y) by lia.
      replace (Z.to_nat X1 + Z.to_nat (x - X1))%nat with (Z.to_nat x) by lia.
      done. }
    by exists (Z.to_nat (y - Y1)), (Z.to_nat (x - X1)), row', v.
Qed.

(** *** The two ways the step ends *)

(** On a box that holds no pixel of the image the step raises; on any
    other box it returns the bounding rectangle of the ink in the box, or
    the box when it has no ink. *)
Lemma shrink_wrap_cases (img : image) (X1 Y1 X2 Y2 : Z) :
  0 <= X1 <= X2 -> 0 <= Y1 <= Y2 ->
  let b := mkZBox X1 Y1 X2 Y2 in
  (~ reaches img b /\ shrink_wrap img (box X1 Y1 X2 Y2) = Raise Cv2Error) \/
  (reaches img b /\
   exists out,
     shrink_wrap img (box X1 Y1 X2 Y2) = Ok out /\
     zcontained out b /\ zx1 out <= zx2 out /\ zy1 out <= zy2 out /\
     bounding_box_or (ink_in img b) b out).
Proof.
  intros HX HY b. unfold shrink_wrap, box; simpl.
  rewrite !py_int_inject_Z. unfold threshold.
  destruct (is_empty (crop img X1 Y1 X2 Y2)) eqn:Eempty; simpl.
  { left. split; [| done]. intros Hreach.
    apply crop_is_empty in Hreach; [congruence | done | done]. }
  right. split; [by apply crop_is_empty |].
  pose proof (fun x y => crop_ink_points img X1 Y1 X2 Y2 x y HX HY) as Hpts.
  assert (forall x y, ink_in img b x y ->
    (x - X1, y - Y1) ∈ image_points 0
      (threshold_binary_inv (crop img X1 Y1 X2 Y2) 245 255)) as Hink.
  { intros x y Hxy. apply Hpts.
    replace (X1 + (x - X1)) with x by lia.
    replace (Y1 + (y - Y1)) with y by lia.
    pose proof Hxy as (Hx & Hy & _). simpl in Hx, Hy.
    split; [lia |]. split; [lia |]. done. }
  destruct (image_points 0 _) as [| p pts] eqn:Epts.
  - assert (forall x y, ~ ink_in img b x y) as Hnone.
    { intros x y Hxy. by apply Hink, elem_of_nil in Hxy. }
    eexists. split; [done |].
    unfold zcontained, bounding_box_or; simpl.
    split; [lia |]. split; [lia |]. split; [lia |].
    split; [intros x y Hxy; by apply Hnone in Hxy |]. by right.
  - destruct (boundingRect (p :: pts)) as [[[rx ry] rw] rh] eqn:Erect.
    destruct (boundingRect_spec (p :: pts) rx ry rw rh)
      as (Hall & (ya & Hleft) & (yb & Hright) & (xa & Htop) & (xb & Hbot));
      [done | done |].
    pose proof (Hall _ _ Hleft) as Hwide.
    apply Hpts in Hleft as (Hl1 & Hl2 & Hl3).
    apply Hpts in Hright as (Hr1 & Hr2 & Hr3).
    apply Hpts in Htop as (Ht1 & Ht2 & Ht3).
    apply Hpts in Hbot as (Hb1 & Hb2 & Hb3).
    pose proof Hl3 as (Hl4 & _). pose proof Hr3 as (Hr4 & _).
    pose proof Ht3 as (_ & Ht4 & _). pose proof Hb3 as (_ & Hb4 & _).
    eexists. split; [done |].
    simpl in *. unfold zcontained, bounding_box_or; simpl.
    split; [lia |]. split; [lia |]. split; [lia |]. split.
    + intros x y Hxy. apply Hink, Hall in Hxy. lia.
    + left. split; [by exists (Y1 + ya) |].
      split; [exists (Y1 + yb) |].
      { by replace (X1 + rx + rw - 1) with (X1 + (rx + rw - 1)) by lia. }
      split; [by exists (X1 + xa) |].
      exists (X1 + xb).
      by replace (Y1 + ry + rh - 1) with (Y1 + (ry + rh - 1)) by lia.
Qed.

Example small_page_shrunk :
  shrink_wrap small_page (box 0 0 4 4) = Ok (mkZBox 1 1 3 3) /\
  shrink_wrap small_page (box 2 0 4 1) = Ok (mkZBox 2 0 4 1).
Proof. by vm_compute. Qed.

(** *** The claim on the shrink-wrapper *)

(** C8.  On a box of width zero or of height zero the crop is empty and
    the shrink-wrap step raises [cv2.error] where the claim promises the
    input box; [main] then fails for the whole page.  A white region that
    is not empty is handled as the claim says: the box comes back. *)
Theorem empty_crop_raises :
  shrink_wrap small_page (box 1 1 1 3) = Raise Cv2Error /\
  shrink_wrap small_page (box 1 2 3 2) = Raise Cv2Error /\
  pipeline small_page [box 1 1 1 3] = Raise Cv2Error /\
  shrink_wrap small_page (box 0 0 1 4) = Ok (mkZBox 0 0 1 4).
Proof. by vm_compute. Qed.

End ShrinkWrapper.

Section InclusionExpander.
Import Magi.

(** *** Associations *)

Lemma associated_text_indices_elem (assoc : list (Z * Z)) (p_idx : nat)
  (z : Z) :
  z ∈ associated_text_indices assoc p_idx <-> (Z.of_nat p_idx, z) ∈ assoc.
Proof.
  unfold associated_text_indices. rewrite list_elem_of_fmap. split.
  - intros ([a b] & -> & Hin). apply list_elem_of_filter in Hin as [Ha Hin].
    simpl in *. by subst.
  - intros Hin. exists (Z.of_nat p_idx, z). split; [done |].
    by apply list_elem_of_filter.
Qed.

(** The loop over the content boxes only asks about their own indices. *)
Lemma expand_ext (panel_box : list Q) (A A' : list Z) (texts : list (list Q)) :
  forall (t_idx : nat) acc,
    (forall t, (t_idx <= t < t_idx + length texts)%nat ->
       Z.of_nat t ∈ A <-> Z.of_nat t ∈ A') ->
    expand panel_box A t_idx texts acc = expand panel_box A' t_idx texts acc.
Proof.
  induction texts as [| text_box texts IH]; intros t_idx acc Hiff; [done |].
  simpl in *.
  assert (bool_decide (Z.of_nat t_idx ∈ A) = bool_decide (Z.of_nat t_idx ∈ A'))
    as -> by (apply bool_decide_ext, Hiff; lia).
  destruct (if bool_decide _ then _ else _) as [hit | |]; simpl; try done.
  destruct (if hit then _ else _) as [acc' | |]; simpl; try done.
  apply IH. intros t Ht. apply Hiff. lia.
Qed.

Lemma expand_panel_drop_malformed (res : detections) (p_idx : nat)
  (panel_box : list Q) :
  (p_idx < length (panels res))%nat ->
  expand_panel res p_idx panel_box
  = expand_panel (drop_malformed res) p_idx panel_box.
Proof.
  intros Hp. unfold expand_panel. simpl.
  destruct (unpack4 panel_box) as [acc | |]; simpl; try done.
  rewrite (expand_ext panel_box _
             (associated_text_indices
                (filter (in_range res) (associations res)) p_idx)); [done |].
  intros t Ht. rewrite !associated_text_indices_elem, list_elem_of_filter.
  unfold in_range; simpl. split; [| by intros [_ ?]].
  intros Hin. split; [| done]. lia.
Qed.

Lemma panels_loop_drop_malformed (res : detections) (ps : list (list Q)) :
  forall p_idx, (p_idx + length ps <= length (panels res))%nat ->
    panels_loop res p_idx ps = panels_loop (drop_malformed res) p_idx ps.
Proof.
  induction ps as [| panel_box ps IH]; intros p_idx Hlen; [done |].
  simpl in *. rewrite expand_panel_drop_malformed by lia.
  destruct (expand_panel _ p_idx panel_box) as [b | |]; simpl; try done.
  rewrite IH by lia. done.
Qed.

(** *** Truncation *)

Lemma py_int_mono (a b : Q) : a <= b -> (py_int a <= py_int b)%Z.
Proof.
  destruct a as [p q], b as [r t]. unfold Qle, py_int; simpl. intros H.
  rewrite <- (Z.quot_mul_cancel_r p (Z.pos q) (Z.pos t)) by lia.
  rewrite <- (Z.quot_mul_cancel_r r (Z.pos t) (Z.pos q)) by lia.
  rewrite (Z.mul_comm (Z.pos t) (Z.pos q)).
  apply Z.quot_le_mono; lia.
Qed.

Lemma py_int_integer (c : Q) (z : Z) : c == inject_Z z -> py_int c = z.
Proof.
  intros H. apply Z.le_antisymm.
  - rewrite <- (py_int_inject_Z z). apply py_int_mono. lra.
  - rewrite <- (py_int_inject_Z z) at 1. apply py_int_mono. lra.
Qed.

(** *** The loop over the content boxes *)

Lemma corners_le_refl a : corners_le a a.
Proof. destruct a as [[[? ?] ?] ?]. simpl. repeat split; apply Qle_refl. Qed.

Lemma corners_le_trans a b c :
  corners_le a b -> corners_le b c -> corners_le a c.
Proof.
  destruct a as [[[? ?] ?] ?], b as [[[? ?] ?] ?], c as [[[? ?] ?] ?].
  simpl. intros (?&?&?&?) (?&?&?&?). repeat split; lra.
Qed.

Lemma boxes_overlap_total (box1 box2 : list Q) (threshold : Q) :
  length box1 = 4%nat -> length box2 = 4%nat ->
  exists r, boxes_overlap box1 box2 threshold = Ok r.
Proof.
  intros H1 H2.
  destruct box1 as [| a0 [| a1 [| a2 [| a3 [| ? ?]]]]]; try done.
  destruct box2 as [| b0 [| b1 [| b2 [| b3 [| ? ?]]]]]; try done.
  unfold boxes_overlap; simpl.
  repeat (match goal with |- context [Qltb ?x ?y] => destruct (Qltb x y) end;
          simpl; try by eexists).
Qed.

(** The corners only grow, and they hold every associated content box
    the loop went over. *)
Lemma expand_spec (panel_box : list Q) (A : list Z) (texts : list (list Q)) :
  length panel_box = 4%nat ->
  Forall (fun b => length b = 4%nat) texts ->
  forall (t_idx : nat) acc,
  exists acc',
    expand panel_box A t_idx texts acc = Ok acc' /\
    corners_le acc' acc /\
    forall (j : nat) c0 c1 c2 c3,
      texts !! j = Some [c0; c1; c2; c3] ->
      Z.of_nat (t_idx + j) ∈ A ->
      corners_le acc' (c0, c1, c2, c3).
Proof.
  intros Hpb. induction 1 as [| text_box texts Hlen Hall IH];
    intros t_idx acc.
  - exists acc. split; [done |]. split; [apply corners_le_refl |].
    intros j ? ? ? ? Hj. done.
  - simpl.
    destruct text_box as [| t0 [| t1 [| t2 [| t3 [| ? ?]]]]]; try done.
    destruct acc as [[[a1 a2] a3] a4].
    set (grown := (py_min a1 t0, py_min a2 t1, py_max a3 t2, py_max a4 t3)).
    assert (corners_le grown (a1, a2, a3, a4)) as Hgrow1
      by (subst grown; simpl; py_cases; repeat split; lra).
    assert (corners_le grown (t0, t1, t2, t3)) as Hgrow2
      by (subst grown; simpl; py_cases; repeat split; lra).
    destruct (bool_decide (Z.of_nat t_idx ∈ A)) eqn:Hmem.
    + simpl. destruct (IH (S t_idx) grown) as (acc' & Hrun & Hle & Hcov).
      exists acc'. split; [done |].
      split; [by eapply corners_le_trans |].
      intros [| j] c0 c1 c2 c3 Hj Hin; simpl in Hj.
      * injection Hj as <- <- <- <-. by eapply corners_le_trans.
      * apply (Hcov j); [done |].
        by replace (S t_idx + j)%nat with (t_idx + S j)%nat by lia.
    + apply bool_decide_eq_false in Hmem.
      destruct (boxes_overlap_total panel_box [t0; t1; t2; t3] 5 Hpb eq_refl)
        as [hit Hhit].
      rewrite Hhit. simpl. destruct hit; simpl.
      * destruct (IH (S t_idx) grown) as (acc' & Hrun & Hle & Hcov).
        exists acc'. split; [done |].
        split; [by eapply corners_le_trans |].
        intros [| j] c0 c1 c2 c3 Hj Hin; simpl in Hj.
        -- injection Hj as <- <- <- <-. by eapply corners_le_trans.
        -- apply (Hcov j); [done |].
           by replace (S t_idx + j)%nat with (t_idx + S j)%nat by lia.
      * destruct (IH (S t_idx) (a1, a2, a3, a4))
          as (acc' & Hrun & Hle & Hcov).
        exists acc'. split; [done |]. split; [done |].
        intros [| j] c0 c1 c2 c3 Hj Hin; simpl in Hj.
        -- exfalso. apply Hmem.
           by replace (t_idx + 0)%nat with t_idx in Hin by lia.
        -- apply (Hcov j); [done |].
           by replace (S t_idx + j)%nat with (t_idx + S j)%nat by lia.
Qed.

(** One panel: the box written out holds the truncated corners of every
    associated content box. *)
Lemma expand_panel_spec (res : detections) (p_idx : nat) (panel_box : list Q) :
  length panel_box = 4%nat ->
  Forall (fun b => length b = 4%nat) (texts res) ->
  exists o,
    expand_panel res p_idx panel_box = Ok o /\
    forall (j : nat) c0 c1 c2 c3,
      (Z.of_nat p_idx, Z.of_nat j) ∈ associations res ->
      texts res !! j = Some [c0; c1; c2; c3] ->
      (zx1 o <= py_int c0)%Z /\ (zy1 o <= py_int c1)%Z /\
      (py_int c2 <= zx2 o)%Z /\ (py_int c3 <= zy2 o)%Z.
Proof.
  intros Hpb Htexts. unfold expand_panel.
  destruct panel_box as [| p0 [| p1 [| p2 [| p3 [| ? ?]]]]] eqn:E; try done.
  simpl.
  destruct (expand_spec [p0; p1; p2; p3]
              (associated_text_indices (associations res) p_idx)
              (texts res) eq_refl Htexts 0 (p0, p1, p2, p3))
    as ([[[a1 a2] a3] a4] & Hrun & _ & Hcov).
  rewrite Hrun. simpl. eexists. split; [done |].
  intros j c0 c1 c2 c3 Hassoc Hj. simpl.
  destruct (Hcov j c0 c1 c2 c3 Hj) as (H1 & H2 & H3 & H4).
  { by apply associated_text_indices_elem. }
  auto using py_int_mono.
Qed.

Lemma panels_loop_spec (res : detections) (ps : list (list Q)) :
  Forall (fun b => length b = 4%nat) ps ->
  Forall (fun b => length b = 4%nat) (texts res) ->
  forall p_idx,
  exists out,
    panels_loop res p_idx ps = Ok out /\
    length out = length ps /\
    forall (k : nat) o, out !! k = Some o ->
      exists panel_box,
        ps !! k = Some panel_box /\
        expand_panel res (p_idx + k) panel_box = Ok o.
Proof.
  intros Hps Htexts. induction Hps as [| panel_box ps Hlen Hall IH];
    intros p_idx.
  - exists []. by repeat split.
  - simpl.
    destruct (expand_panel_spec res p_idx panel_box Hlen Htexts)
      as (o & Ho & _).
    rewrite Ho. simpl.
    destruct (IH (S p_idx)) as (out & Hout & Hlen' & Hlook).
    rewrite Hout. simpl. exists (o :: out).
    split; [done |]. split; [simpl; lia |].
    intros [| k] o' Hk; simpl in Hk.
    + injection Hk as <-. exists panel_box. split; [done |].
      by replace (p_idx + 0)%nat with p_idx by lia.
    + destruct (Hlook k o' Hk) as (pb & Hpb & Hexp).
      exists pb. split; [done |].
      by replace (p_idx + S k)%nat with (S p_idx + k)%nat by lia.
Qed.

(** Scenario B of the specification: a content box within 5 pixels of
    the panel, without association. *)
Example scenario_B :
  get_inclusive_panels
    (mkDetections [[0; 0; 100; 100]] [[90; 40; 120; 60]] [])
  = Ok [mkZBox 0 0 120 100].
Proof. by vm_compute. Qed.

(** *** The claims on the inclusion expander *)

(** C2, as amended.  Associations whose panel index or content index is
    out of range are silently ignored: on every detection result
    [get_inclusive_panels] returns what it returns when those pairs are
    taken out of the associations; it raises no error because of them. *)
Theorem malformed_associations_ignored (res : detections) :
  get_inclusive_panels res = get_inclusive_panels (drop_malformed res).
Proof.
  unfold get_inclusive_panels.
  change (panels (drop_malformed res)) with (panels res).
  apply panels_loop_drop_malformed. simpl. lia.
Qed.

(** C2, as stated, fails.  The detection result [dangling_association] has
    an association to content box 7 and no content box at all;
    [get_inclusive_panels] returns the panel, and raises no error. *)
Lemma dangling_association_accepted :
  (0, 7)%Z ∈ associations dangling_association /\
  ~ in_range dangling_association (0, 7)%Z /\
  get_inclusive_panels dangling_association = Ok [mkZBox 0 0 10 10] /\
  ~ exists e, get_inclusive_panels dangling_association = Raise e.
Proof.
  split; [apply list_elem_of_here |].
  split; [unfold in_range; simpl; lia |].
  split; [by vm_compute |].
  intros [e He]. vm_compute in He. discriminate.
Qed.

(** C5, as amended.  On a detection result whose boxes all have four
    coordinates, [get_inclusive_panels] returns one box per panel, and
    for every association [(i, j)] the box at position [i] holds content
    box [j] with its coordinates truncated by [int]; it holds the content
    box itself when the coordinates of the content box are integers. *)
Theorem associated_content_covered (res : detections) :
  well_formed res ->
  exists out,
    get_inclusive_panels res = Ok out /\
    length out = length (panels res) /\
    forall (i j : nat) c0 c1 c2 c3 o,
      (Z.of_nat i, Z.of_nat j) ∈ associations res ->
      texts res !! j = Some [c0; c1; c2; c3] ->
      out !! i = Some o ->
      ((zx1 o <= py_int c0)%Z /\ (zy1 o <= py_int c1)%Z /\
       (py_int c2 <= zx2 o)%Z /\ (py_int c3 <= zy2 o)%Z) /\
      (is_integer c0 -> is_integer c1 -> is_integer c2 -> is_integer c3 ->
       contained (mkBox c0 c1 c2 c3)
                 (box (zx1 o) (zy1 o) (zx2 o) (zy2 o))).
Proof.
  intros [Hps Htexts]. unfold get_inclusive_panels.
  destruct (panels_loop_spec res (panels res) Hps Htexts 0)
    as (out & Hout & Hlen & Hlook).
  exists out. split; [done |]. split; [done |].
  intros i j c0 c1 c2 c3 o Hassoc Hj Hi.
  destruct (Hlook i o Hi) as (panel_box & Hpb & Hexp). simpl in Hexp.
  destruct (expand_panel_spec res i panel_box) as (o' & Ho' & Hcov);
    [exact (Forall_lookup_1 _ _ _ _ Hps Hpb) | done |].
  assert (o' = o) as -> by congruence.
  specialize (Hcov j c0 c1 c2 c3 Hassoc Hj).
  split; [done |].
  intros [z0 H0] [z1 H1] [z2 H2] [z3 H3].
  rewrite (py_int_integer c0 z0 H0), (py_int_integer c1 z1 H1),
    (py_int_integer c2 z2 H2), (py_int_integer c3 z3 H3) in Hcov.
  destruct Hcov as (Ha & Hb & Hc & Hd).
  unfold contained, box; simpl.
  rewrite H0, H1, H2, H3, <- !Zle_Qle. done.
Qed.

Lemma associated_content_covered_witness :
  well_formed half_pixel_bubble /\
  exists out,
    get_inclusive_panels half_pixel_bubble = Ok out /\
    length out = length (panels half_pixel_bubble) /\
    forall (i j : nat) c0 c1 c2 c3 o,
      (Z.of_nat i, Z.of_nat j) ∈ associations half_pixel_bubble ->
      texts half_pixel_bubble !! j = Some [c0; c1; c2; c3] ->
      out !! i = Some o ->
      ((zx1 o <= py_int c0)%Z /\ (zy1 o <= py_int c1)%Z /\
       (py_int c2 <= zx2 o)%Z /\ (py_int c3 <= zy2 o)%Z) /\
      (is_integer c0 -> is_integer c1 -> is_integer c2 -> is_integer c3 ->
       contained (mkBox c0 c1 c2 c3)
                 (box (zx1 o) (zy1 o) (zx2 o) (zy2 o))).
Proof.
  assert (well_formed half_pixel_bubble) as H
    by (split; repeat constructor).
  split; [exact H |].
  exact (associated_content_covered half_pixel_bubble H).
Defined.

(** C5, as stated, fails.  In [half_pixel_bubble] the content box is
    associated with the panel and ends at [x2 = 10.5]; the box returned
    for the panel ends at [x2 = 10]. *)
Lemma half_pixel_bubble_not_covered :
  (0, 0)%Z ∈ associations half_pixel_bubble /\
  texts half_pixel_bubble !! 0%nat = Some [2; 2; 21 # 2; 8] /\
  get_inclusive_panels half_pixel_bubble = Ok [mkZBox 0 0 10 10] /\
  ~ (21 # 2) <= inject_Z (zx2 (mkZBox 0 0 10 10)).
Proof.
  split; [apply list_elem_of_here |].
  split; [done |].
  split; [by vm_compute |].
  vm_compute. intros H. by apply H.
Qed.

End InclusionExpander.

(** * Further properties of the row merger *)

Section RowMergerOutcomes.
Import YOLO.

(** *** Errors of the scan loops *)

(** The two tests return, or the division fails. *)
Lemma merge_test_cases thr (a b : Box) :
  (exists m, merge_test thr a b = Ok m) \/
  (merge_test thr a b = Raise ZeroDivisionError /\
   same_row a b = true /\ py_min (area a) (area b) == 0).
Proof.
  unfold merge_test, overlap_ratio.
  destruct (same_row a b); [| left; by eexists].
  simpl. destruct (Qeq_bool _ 0) eqn:E; simpl.
  - right. apply Qeq_bool_eq in E. by repeat split.
  - left. by eexists.
Qed.

Lemma scan_j_cases fuel thr (boxes : list Box) (i j : nat) :
  (i < j)%nat -> (length boxes - j < fuel)%nat ->
  scan_result thr boxes (scan_j fuel thr boxes i j).
Proof.
  revert j. induction fuel as [| fuel IH]; intros j Hij Hfuel; [lia |].
  simpl. destruct (j <? length boxes)%nat eqn:Hlt; [| constructor].
  apply Nat.ltb_lt in Hlt. unfold getitem.
  destruct (lookup_lt_is_Some_2 boxes i) as [b1 Hi]; [lia |].
  destruct (lookup_lt_is_Some_2 boxes j) as [b2 Hj]; [lia |].
  rewrite Hi, Hj; simpl.
  destruct (merge_test_cases thr b1 b2) as [[m Hm] | (Hm & Hrow & Hzero)];
    rewrite Hm; simpl.
  - destruct m.
    + constructor. by econstructor.
    + apply IH; lia.
  - exact (scan_failed thr boxes i j b1 b2 Hij Hi Hj Hrow Hzero).
Qed.

Lemma scan_i_cases fuel thr (boxes : list Box) (i : nat) :
  (length boxes - i < fuel)%nat ->
  scan_result thr boxes (scan_i fuel thr boxes i).
Proof.
  revert i. induction fuel as [| fuel IH]; intros i Hfuel; [lia |].
  rewrite scan_i_S. destruct (i <? length boxes)%nat eqn:Hlt; [| constructor].
  apply Nat.ltb_lt in Hlt.
  remember (scan_j (S (length boxes)) thr boxes i (i + 1)) as r eqn:Er.
  assert (scan_result thr boxes r) as Hj
    by (subst r; apply scan_j_cases; lia).
  clear Er. destruct Hj as [l Hl | | i' j' b1 b2 H1 H2 H3 H4 H5]; simpl.
  - by constructor.
  - apply IH; lia.
  - exact (scan_failed thr boxes i' j' b1 b2 H1 H2 H3 H4 H5).
Qed.

Lemma pass_cases thr (boxes : list Box) :
  scan_result thr boxes (pass thr boxes).
Proof. apply scan_i_cases. lia. Qed.

(** *** The outer loop on any list *)

Lemma merge_loop_S fuel thr (boxes : list Box) :
  merge_loop (S fuel) thr boxes
  = r ← pass thr boxes;
    match r with
    | Some boxes' => merge_loop fuel thr boxes'
    | None => Ok boxes
    end.
Proof. reflexivity. Qed.

Lemma merge_step_nonempty thr (l l' : list Box) :
  merge_step thr l l' -> (1 <= length l')%nat.
Proof.
  intros H. pose proof (merge_step_length _ _ _ H) as Hlen.
  destruct H as [i j b1 b2 Hij Hi Hj _]. apply lookup_lt_Some in Hj.
  lia.
Qed.

Lemma merge_result_step thr (l l' : list Box) r :
  merge_step thr l l' -> merge_result thr l' r -> merge_result thr l r.
Proof.
  intros Hstep [out Hm Hp | l2 i j b1 b2 Hm Hij Hi Hj Hrow Hz].
  - constructor; [by econstructor | done].
  - eapply merge_failed; [by econstructor | done..].
Qed.

Lemma merge_loop_cases fuel thr (boxes : list Box) :
  (1 <= length boxes <= fuel)%nat ->
  merge_result thr boxes (merge_loop fuel thr boxes).
Proof.
  revert boxes. induction fuel as [| fuel IH]; intros boxes Hlen; [lia |].
  rewrite merge_loop_S.
  remember (pass thr boxes) as r eqn:Er.
  assert (scan_result thr boxes r) as Hr by (subst r; apply pass_cases).
  destruct Hr as [l Hl | | i j b1 b2 H1 H2 H3 H4 H5]; simpl.
  - eapply merge_result_step; [done |]. apply IH.
    pose proof (merge_step_length _ _ _ Hl).
    pose proof (merge_step_nonempty _ _ _ Hl). lia.
  - constructor; [constructor | done].
  - eapply merge_failed; [constructor | done..].
Qed.

Lemma merge_overlapping_boxes_cases thr (boxes : list Box) :
  ((length boxes <= 1)%nat /\ merge_overlapping_boxes boxes thr = Ok boxes) \/
  ((1 < length boxes)%nat /\
   merge_result thr boxes (merge_overlapping_boxes boxes thr)).
Proof.
  unfold merge_overlapping_boxes.
  destruct (length boxes <=? 1)%nat eqn:E.
  - left. apply Nat.leb_le in E. done.
  - right. apply Nat.leb_gt in E. split; [done |].
    apply merge_loop_cases. lia.
Qed.

(** A pass over at most one box finds nothing. *)
Lemma pass_short thr (boxes : list Box) :
  (length boxes <= 1)%nat -> pass thr boxes = Ok None.
Proof.
  intros Hlen. remember (pass thr boxes) as r eqn:Er.
  assert (scan_result thr boxes r) as Hr by (subst r; apply pass_cases).
  destruct Hr as [l Hl | | i j b1 b2 H1 H2 H3 H4 H5]; [| done |].
  - destruct Hl as [i j b1 b2 Hij Hi Hj _]. apply lookup_lt_Some in Hj. lia.
  - apply lookup_lt_Some in H3. lia.
Qed.

(** *** Runs of merges *)

Lemma merges_length thr (l l' : list Box) :
  merges thr l l' ->
  (length l' <= length l)%nat /\
  (length l' = length l -> l' = l) /\
  (l <> [] -> l' <> []).
Proof.
  induction 1 as [l | l l' l'' Hstep Hrest (IH1 & IH2 & IH3)].
  - by repeat split.
  - pose proof (merge_step_length _ _ _ Hstep).
    pose proof (merge_step_nonempty _ _ _ Hstep).
    repeat split; [lia | lia |].
    intros _. apply IH3. destruct l'; [simpl in *; lia | done].
Qed.

Lemma merges_covers thr (l l' : list Box) : merges thr l l' -> covers l' l.
Proof.
  induction 1 as [l | l l' l'' Hstep Hrest IH]; [apply covers_refl |].
  eapply covers_trans; [by eapply merge_step_covers | done].
Qed.

Lemma py_min_choice (a b : Q) : py_min a b = a \/ py_min a b = b.
Proof. unfold py_min. destruct (Qltb b a); auto. Qed.

Lemma py_max_choice (a b : Q) : py_max a b = a \/ py_max a b = b.
Proof. unfold py_max. destruct (Qltb a b); auto. Qed.

Lemma merge_boxes_coordinates (l : list Box) (a b : Box) :
  a ∈ l -> b ∈ l -> coordinates_from l (merge_boxes a b).
Proof.
  intros Ha Hb. unfold coordinates_from, merge_boxes; simpl.
  destruct (py_min_choice (x1 a) (x1 b)) as [-> | ->],
           (py_min_choice (y1 a) (y1 b)) as [-> | ->],
           (py_max_choice (x2 a) (x2 b)) as [-> | ->],
           (py_max_choice (y2 a) (y2 b)) as [-> | ->];
    repeat split; eauto.
Qed.

Lemma coordinates_from_self (l : list Box) (o : Box) :
  o ∈ l -> coordinates_from l o.
Proof. intros H. unfold coordinates_from. repeat split; eauto. Qed.

Lemma coordinates_from_trans (l l' : list Box) (o : Box) :
  (forall b, b ∈ l' -> coordinates_from l b) ->
  coordinates_from l' o -> coordinates_from l o.
Proof.
  intros Hl' ((a & Ha & Ea) & (b & Hb & Eb) & (c & Hc & Ec) & (d & Hd & Ed)).
  destruct (Hl' a Ha) as ((a' & Ha' & Ea') & _).
  destruct (Hl' b Hb) as (_ & (b' & Hb' & Eb') & _).
  destruct (Hl' c Hc) as (_ & _ & (c' & Hc' & Ec') & _).
  destruct (Hl' d Hd) as (_ & _ & _ & (d' & Hd' & Ed')).
  unfold coordinates_from. repeat split.
  - exists a'. split; [done | congruence].
  - exists b'. split; [done | congruence].
  - exists c'. split; [done | congruence].
  - exists d'. split; [done | congruence].
Qed.

(** After one merge every box is an old box or the union of two. *)
Lemma merge_step_elem thr (l l' : list Box) (o : Box) :
  merge_step thr l l' -> o ∈ l' ->
  o ∈ l \/ exists a b, a ∈ l /\ b ∈ l /\ o = merge_boxes a b.
Proof.
  intros [i j b1 b2 Hij Hi Hj _] Ho.
  apply list_elem_of_delete_inv in Ho.
  apply list_elem_of_lookup in Ho as [k Hk].
  apply list_lookup_insert_Some in Hk as [(-> & <- & _) | (_ & Hk)].
  - right. exists b1, b2.
    repeat split; try done; by eapply list_elem_of_lookup_2.
  - left. by eapply list_elem_of_lookup_2.
Qed.

Lemma merges_coordinates thr (l l' : list Box) :
  merges thr l l' ->
  forall o, o ∈ l' ->
    coordinates_from l o /\ exists b, b ∈ l /\ contained b o.
Proof.
  induction 1 as [l | l l' l'' Hstep Hrest IH]; intros o Ho.
  - split; [by apply coordinates_from_self |].
    exists o. split; [done | apply contained_refl].
  - assert (forall b, b ∈ l' ->
              coordinates_from l b /\ exists c, c ∈ l /\ contained c b) as H1.
    { intros b Hb.
      destruct (merge_step_elem _ _ _ _ Hstep Hb)
        as [Hin | (a & c & Ha & Hc & ->)].
      - split; [by apply coordinates_from_self |].
        exists b. split; [done | apply contained_refl].
      - split; [by apply merge_boxes_coordinates |].
        exists a. split; [done | apply merge_boxes_contains_l]. }
    destruct (IH o Ho) as (Hco & b & Hb & Hbo). split.
    + eapply coordinates_from_trans; [| done]. intros c Hc. by apply H1.
    + destruct (H1 b Hb) as (_ & c & Hc & Hcb).
      exists c. split; [done |]. by eapply contained_trans.
Qed.

Lemma merges_upright thr (l l' : list Box) :
  merges thr l l' -> Forall upright l -> Forall upright l'.
Proof.
  induction 1 as [l | l l' l'' Hstep Hrest IH]; [done |].
  intros Hall. apply IH.
  destruct Hstep as [i j b1 b2 Hij Hi Hj _].
  apply Forall_delete, Forall_insert; [done |].
  pose proof (Forall_lookup_1 _ _ _ _ Hall Hi) as [Hw1 Hh1].
  pose proof (Forall_lookup_1 _ _ _ _ Hall Hj) as [Hw2 Hh2].
  unfold upright, merge_boxes; simpl. py_cases; split; lra.
Qed.

(** Two upright boxes of one row have positive areas. *)
Lemma upright_same_row_area (a b : Box) :
  upright a -> upright b -> same_row a b = true ->
  0 < py_min (area a) (area b).
Proof.
  intros [Hwa _] [Hwb _] Hrow.
  destruct (same_row_heights a b Hrow) as [Hha Hhb].
  assert (0 < area a) by (unfold area; nra).
  assert (0 < area b) by (unfold area; nra).
  py_cases; lra.
Qed.

(** *** Extra properties *)

(** X1.  [merge_boxes] returns the smallest box that holds both boxes:
    it holds each of them, and every box that holds both holds it. *)
Theorem merge_boxes_least_upper_bound (a b : Box) :
  contained a (merge_boxes a b) /\
  contained b (merge_boxes a b) /\
  forall c, contained a c -> contained b c -> contained (merge_boxes a b) c.
Proof.
  split; [apply merge_boxes_contains_l |].
  split; [apply merge_boxes_contains_r |].
  unfold contained, merge_boxes; simpl.
  intros c (?&?&?&?) (?&?&?&?). py_cases; repeat split; lra.
Qed.

(** X2.  For two boxes whose corners are in order, the area of the union
    is at least the area of either box. *)
Theorem merge_boxes_area_monotone (a b : Box) :
  ordered_corners a -> ordered_corners b ->
  area a <= area (merge_boxes a b) /\ area b <= area (merge_boxes a b).
Proof.
  intros [Hwa Hha] [Hwb Hhb]. unfold area, merge_boxes; simpl.
  assert (x2 a - x1 a <= py_max (x2 a) (x2 b) - py_min (x1 a) (x1 b))
    by (py_cases; lra).
  assert (y2 a - y1 a <= py_max (y2 a) (y2 b) - py_min (y1 a) (y1 b))
    by (py_cases; lra).
  assert (x2 b - x1 b <= py_max (x2 a) (x2 b) - py_min (x1 a) (x1 b))
    by (py_cases; lra).
  assert (y2 b - y1 b <= py_max (y2 a) (y2 b) - py_min (y1 a) (y1 b))
    by (py_cases; lra).
  split; nra.
Qed.

Lemma merge_boxes_area_monotone_witness :
  ordered_corners (box 0 0 10 10) /\ ordered_corners (box 3 4 15 14) /\
  area (box 0 0 10 10) <= area (merge_boxes (box 0 0 10 10) (box 3 4 15 14)) /\
  area (box 3 4 15 14) <= area (merge_boxes (box 0 0 10 10) (box 3 4 15 14)).
Proof.
  assert (ordered_corners (box 0 0 10 10)) as Ha
    by (split; vm_compute; discriminate).
  assert (ordered_corners (box 3 4 15 14)) as Hb
    by (split; vm_compute; discriminate).
  split; [exact Ha |]. split; [exact Hb |].
  exact (merge_boxes_area_monotone _ _ Ha Hb).
Defined.

(** X3.  On every list and threshold the merger either returns a list or
    raises [ZeroDivisionError]; it raises nothing else and its loops end.
    When it raises, a list reached from the input by merges has a pair of
    one row whose smaller area is zero. *)
Theorem merge_overlapping_boxes_only_zero_division (boxes : list Box)
  (thr : Q) :
  (exists out, merge_overlapping_boxes boxes thr = Ok out) \/
  (merge_overlapping_boxes boxes thr = Raise ZeroDivisionError /\
   exists l (i j : nat) b1 b2,
     merges thr boxes l /\ (i < j)%nat /\
     l !! i = Some b1 /\ l !! j = Some b2 /\
     same_row b1 b2 = true /\ py_min (area b1) (area b2) == 0).
Proof.
  destruct (merge_overlapping_boxes_cases thr boxes) as [[_ H] | [_ H]].
  - left. by exists boxes.
  - remember (merge_overlapping_boxes boxes thr) as r eqn:Er. clear Er.
    destruct H as [out Hm Hp | l i j b1 b2 Hm Hij Hi Hj Hrow Hz].
    + left. by exists out.
    + right. split; [done |]. by exists l, i, j, b1, b2.
Qed.

(** X4.  On boxes of positive width and of height zero or more the merger
    returns a list, and the boxes of that list are of this kind again: a
    box of height zero never reaches the division. *)
Theorem merge_overlapping_boxes_upright (boxes : list Box) (thr : Q) :
  Forall upright boxes ->
  exists out,
    merge_overlapping_boxes boxes thr = Ok out /\ Forall upright out.
Proof.
  intros Hall.
  destruct (merge_overlapping_boxes_cases thr boxes) as [[_ H] | [_ H]].
  - by exists boxes.
  - remember (merge_overlapping_boxes boxes thr) as r eqn:Er. clear Er.
    destruct H as [out Hm Hp | l i j b1 b2 Hm Hij Hi Hj Hrow Hz].
    + exists out. split; [done |]. by eapply merges_upright.
    + exfalso. pose proof (merges_upright _ _ _ Hm Hall) as Hl.
      pose proof (upright_same_row_area b1 b2
                    (Forall_lookup_1 _ _ _ _ Hl Hi)
                    (Forall_lookup_1 _ _ _ _ Hl Hj) Hrow). lra.
Qed.

Lemma merge_overlapping_boxes_upright_witness :
  Forall upright [box 0 5 10 5; box 0 0 10 10] /\
  exists out,
    merge_overlapping_boxes [box 0 5 10 5; box 0 0 10 10] (3 # 10) = Ok out /\
    Forall upright out.
Proof.
  assert (Forall upright [box 0 5 10 5; box 0 0 10 10]) as H.
  { repeat constructor; vm_compute; discriminate. }
  split; [exact H |].
  exact (merge_overlapping_boxes_upright _ (3 # 10) H).
Defined.

(** X5.  A list returned by the merger is not longer than the input; when
    it is as long, it is the input itself; and it is empty only for the
    empty input. *)
Theorem merge_overlapping_boxes_count (boxes out : list Box) (thr : Q) :
  merge_overlapping_boxes boxes thr = Ok out ->
  (length out <= length boxes)%nat /\
  (length out = length boxes -> out = boxes) /\
  (boxes <> [] -> out <> []).
Proof.
  intros Hrun.
  destruct (merge_overlapping_boxes_cases thr boxes) as [[_ H] | [_ H]].
  - rewrite Hrun in H. injection H as ->. by repeat split.
  - rewrite Hrun in H. inversion H as [out' Hm Hp |]; subst.
    by apply merges_length in Hm.
Qed.

Lemma merge_overlapping_boxes_count_witness :
  merge_overlapping_boxes three_boxes (3 # 10) = Ok three_boxes_out /\
  (length three_boxes_out <= length three_boxes)%nat /\
  (length three_boxes_out = length three_boxes ->
   three_boxes_out = three_boxes) /\
  (three_boxes <> [] -> three_boxes_out <> []).
Proof.
  assert (merge_overlapping_boxes three_boxes (3 # 10) = Ok three_boxes_out)
    as H by (vm_compute; reflexivity).
  split; [exact H |].
  exact (merge_overlapping_boxes_count _ _ _ H).
Defined.

(** X6.  In a list returned by the merger no pair passes both tests, and
    no pair fails the division; the merger run on that list returns it
    unchanged.  This holds for every input, whatever its areas. *)
Theorem merge_overlapping_boxes_fixpoint (boxes out : list Box) (thr : Q) :
  merge_overlapping_boxes boxes thr = Ok out ->
  (forall (i j : nat) b1 b2, (i < j)%nat ->
     out !! i = Some b1 -> out !! j = Some b2 ->
     merge_test thr b1 b2 = Ok false) /\
  merge_overlapping_boxes out thr = Ok out.
Proof.
  intros Hrun.
  assert (pass thr out = Ok None) as Hp.
  { destruct (merge_overlapping_boxes_cases thr boxes) as [[Hlen H] | [_ H]].
    - rewrite Hrun in H. injection H as ->. by apply pass_short.
    - rewrite Hrun in H. by inversion H. }
  split; [by apply pass_None |].
  unfold merge_overlapping_boxes.
  destruct (length out <=? 1)%nat eqn:E; [done |].
  apply Nat.leb_gt in E. destruct (length out); [lia |].
  by apply merge_loop_exit.
Qed.

Lemma merge_overlapping_boxes_fixpoint_witness :
  merge_overlapping_boxes three_boxes (3 # 10) = Ok three_boxes_out /\
  (forall (i j : nat) b1 b2, (i < j)%nat ->
     three_boxes_out !! i = Some b1 -> three_boxes_out !! j = Some b2 ->
     merge_test (3 # 10) b1 b2 = Ok false) /\
  merge_overlapping_boxes three_boxes_out (3 # 10) = Ok three_boxes_out.
Proof.
  assert (merge_overlapping_boxes three_boxes (3 # 10) = Ok three_boxes_out)
    as H by (vm_compute; reflexivity).
  split; [exact H |].
  exact (merge_overlapping_boxes_fixpoint _ _ _ H).
Defined.

(** X7.  For every input on which the merger returns a list: every input
    box lies inside a box of the list; every box of the list holds an
    input box; and each of its four coordinates is that coordinate of some
    input box, so the merger makes up no coordinate. *)
Theorem merge_overlapping_boxes_coordinates (boxes out : list Box) (thr : Q) :
  merge_overlapping_boxes boxes thr = Ok out ->
  covers out boxes /\
  forall o, o ∈ out ->
    coordinates_from boxes o /\ exists b, b ∈ boxes /\ contained b o.
Proof.
  intros Hrun.
  assert (merges thr boxes out) as Hm.
  { destruct (merge_overlapping_boxes_cases thr boxes) as [[_ H] | [_ H]].
    - rewrite Hrun in H. injection H as ->. constructor.
    - rewrite Hrun in H. by inversion H. }
  split; [by eapply merges_covers | by eapply merges_coordinates].
Qed.

Lemma merge_overlapping_boxes_coordinates_witness :
  merge_overlapping_boxes three_boxes (3 # 10) = Ok three_boxes_out /\
  covers three_boxes_out three_boxes /\
  forall o, o ∈ three_boxes_out ->
    coordinates_from three_boxes o /\
    exists b, b ∈ three_boxes /\ contained b o.
Proof.
  assert (merge_overlapping_boxes three_boxes (3 # 10) = Ok three_boxes_out)
    as H by (vm_compute; reflexivity).
  split; [exact H |].
  exact (merge_overlapping_boxes_coordinates _ _ _ H).
Defined.

(** X8.  When no two boxes of the input pass the same-row test, the merger
    returns the input as it is; the areas are not looked at, so boxes of
    area zero are accepted. *)
Theorem merge_overlapping_boxes_other_rows (boxes : list Box) (thr : Q) :
  (forall (i j : nat) b1 b2, (i < j)%nat ->
     boxes !! i = Some b1 -> boxes !! j = Some b2 ->
     same_row b1 b2 = false) ->
  merge_overlapping_boxes boxes thr = Ok boxes.
Proof.
  intros Hrows.
  assert (pass thr boxes = Ok None) as Hp.
  { remember (pass thr boxes) as r eqn:Er.
    assert (scan_result thr boxes r) as Hr by (subst r; apply pass_cases).
    destruct Hr as [l Hl | | i j b1 b2 H1 H2 H3 H4 H5]; [| done |].
    - destruct Hl as [i j b1 b2 Hij Hi Hj Ht].
      apply merge_test_same_row in Ht.
      rewrite (Hrows i j b1 b2 Hij Hi Hj) in Ht. done.
    - rewrite (Hrows i j b1 b2 H1 H2 H3) in H4. done. }
  unfold merge_overlapping_boxes.
  destruct (length boxes <=? 1)%nat eqn:E; [done |].
  apply Nat.leb_gt in E. destruct (length boxes); [lia |].
  by apply merge_loop_exit.
Qed.

Lemma merge_overlapping_boxes_other_rows_witness :
  (forall (i j : nat) b1 b2, (i < j)%nat ->
     flat_boxes !! i = Some b1 -> flat_boxes !! j = Some b2 ->
     same_row b1 b2 = false) /\
  merge_overlapping_boxes flat_boxes (3 # 10) = Ok flat_boxes.
Proof.
  assert (forall (i j : nat) b1 b2, (i < j)%nat ->
            flat_boxes !! i = Some b1 -> flat_boxes !! j = Some b2 ->
            same_row b1 b2 = false) as H.
  { intros [| [| i]] [| [| j]] b1 b2 Hij Hi Hj; simpl in Hi, Hj;
      try lia; try discriminate.
    injection Hi as <-. injection Hj as <-. reflexivity. }
  split; [exact H |].
  exact (merge_overlapping_boxes_other_rows flat_boxes (3 # 10) H).
Defined.

End RowMergerOutcomes.

(** * Further properties of the reading-order sorter *)

Section SorterRows.
Import YOLO.

Lemma extend_sorted_concat (rtl : bool) (clusters : list (list Box)) :
  extend_sorted rtl clusters = concat (py_sort x1 rtl <$> clusters).
Proof.
  unfold extend_sorted.
  assert (forall acc,
    foldl (fun sorted_panels cluster =>
             sorted_panels ++ py_sort x1 rtl cluster) acc clusters
    = acc ++ concat (py_sort x1 rtl <$> clusters)) as H.
  { induction clusters as [| c cs IH]; intros acc; simpl.
    - by rewrite app_nil_r.
    - by rewrite IH, <- app_assoc. }
  apply (H []).
Qed.

(** Insertion does not move [b] past an element of its own key. *)
Lemma insert_by_with_key {A} (key : A -> Q) (reverse : bool) (k : Q) (b : A)
  (l : list A) :
  with_key key k (insert_by key reverse b l) = with_key key k (b :: l).
Proof.
  unfold with_key. induction l as [| c l IH]; [done |].
  cbn [insert_by].
  destruct (if reverse then Qltb (key b) (key c) else Qltb (key c) (key b))
    eqn:Htest; [| done].
  assert (~ key b == key c) as Hne.
  { destruct reverse; apply Qltb_lt in Htest; lra. }
  rewrite (filter_cons _ c), IH, !filter_cons.
  destruct (decide (key c == k)) as [Hc | Hc];
    destruct (decide (key b == k)) as [Hb | Hb]; try done.
  exfalso. apply Hne. by rewrite Hb, Hc.
Qed.

Lemma py_sort_with_key {A} (key : A -> Q) (reverse : bool) (k : Q)
  (l : list A) :
  with_key key k (py_sort key reverse l) = with_key key k l.
Proof.
  induction l as [| b l IH]; [done |].
  unfold py_sort in *. simpl. rewrite insert_by_with_key.
  unfold with_key in *. rewrite !filter_cons. by rewrite IH.
Qed.

Lemma py_sort_stably_sorted {A} (key : A -> Q) (reverse : bool)
  (l : list A) :
  stably_sorted key reverse l (py_sort key reverse l).
Proof.
  split; [apply py_sort_perm |].
  split; [apply py_sort_sorted | intros k; apply py_sort_with_key].
Qed.

(** X9.  On more than one box the output of [xy_cut_sort] is fixed by
    three rules.  The boxes are sorted by [y1], ascending, boxes of equal
    [y1] in input order.  The sorted list is cut into rows where a box
    starts a new row after the box before it ([row_clusters]: no empty
    row, no break inside a row, a break between two rows).  Each row is
    written out sorted by [x1], ascending from the left and descending
    when [rtl] is set, boxes of equal [x1] in the order the row has them;
    the output is the rows so sorted, one after the other. *)
Theorem xy_cut_sort_rows (boxes : list Box) (rtl : bool) :
  (1 < length boxes)%nat ->
  exists sorted clusters rows,
    stably_sorted y1 false boxes sorted /\
    row_clusters sorted = Ok clusters /\
    concat clusters = sorted /\
    Forall row_ok clusters /\
    chain row_break clusters /\
    Forall2 (stably_sorted x1 rtl) clusters rows /\
    xy_cut_sort boxes rtl = Ok (concat rows).
Proof.
  intros Hlen.
  destruct (row_clusters_spec (py_sort y1 false boxes))
    as (clusters & Hcl & Hcat & Hok & Hbr).
  { intros Hnil. pose proof (py_sort_perm y1 false boxes) as Hp.
    rewrite Hnil in Hp. apply Permutation_nil_l in Hp. subst. simpl in Hlen.
    lia. }
  exists (py_sort y1 false boxes), clusters, (py_sort x1 rtl <$> clusters).
  split; [apply py_sort_stably_sorted |].
  split; [done |]. split; [done |]. split; [done |]. split; [done |].
  split.
  - apply Forall2_fmap_r, Forall_Forall2_diag, Forall_true.
    intros c. apply py_sort_stably_sorted.
  - unfold xy_cut_sort.
    destruct (length boxes <=? 1)%nat eqn:E; [apply Nat.leb_le in E; lia |].
    rewrite Hcl. simpl. by rewrite extend_sorted_concat.
Qed.

Lemma xy_cut_sort_rows_witness :
  (1 < length grid)%nat /\
  exists sorted clusters rows,
    stably_sorted y1 false grid sorted /\
    row_clusters sorted = Ok clusters /\
    concat clusters = sorted /\
    Forall row_ok clusters /\
    chain row_break clusters /\
    Forall2 (stably_sorted x1 true) clusters rows /\
    xy_cut_sort grid true = Ok (concat rows).
Proof.
  assert (1 < length grid)%nat as H by (simpl; lia).
  split; [exact H |].
  exact (xy_cut_sort_rows grid true H).
Defined.

End SorterRows.

(** * Further properties of the shrink-wrapper *)

Section ShrinkWrapperMore.
Import YOLO.
Local Open Scope Z_scope.

(** The bounding rectangle of a set of pixels is unique. *)
Lemma bounding_box_or_unique (P P' : Z -> Z -> Prop) (b out out' : ZBox) :
  (forall x y, P x y <-> P' x y) ->
  bounding_box_or P b out -> bounding_box_or P' b out' -> out = out'.
Proof.
  intros Hiff [Hcov Hcase] [Hcov' Hcase'].
  destruct Hcase as [((ya & Hl) & (yb & Hr) & (xa & Ht) & (xb & Hb))
                    | [-> Hnone]];
    destruct Hcase' as [((ya' & Hl') & (yb' & Hr') & (xa' & Ht') & (xb' & Hb'))
                       | [-> Hnone']].
  - apply Hiff, Hcov' in Hl. apply Hiff, Hcov' in Hr.
    apply Hiff, Hcov' in Ht. apply Hiff, Hcov' in Hb.
    apply Hiff, Hcov in Hl'. apply Hiff, Hcov in Hr'.
    apply Hiff, Hcov in Ht'. apply Hiff, Hcov in Hb'.
    destruct out, out'; simpl in *. f_equal; lia.
  - exfalso. apply Hiff in Hl. by apply Hnone' in Hl.
  - exfalso. apply Hiff in Hl'. by apply Hnone in Hl'.
  - done.
Qed.

(** On an image whose rows all have [W] pixels, the boxes that hold a
    pixel are those that are not empty and start inside the image. *)
Lemma reaches_rectangular (img : image) (W : nat) (X1 Y1 X2 Y2 : Z) :
  Forall (fun row => length row = W) img ->
  0 <= X1 -> 0 <= Y1 ->
  reaches img (mkZBox X1 Y1 X2 Y2) <->
  X1 < X2 /\ Y1 < Y2 /\ X1 < Z.of_nat W /\ Y1 < Z.of_nat (length img).
Proof.
  intros Hrect HX HY. unfold reaches, in_image; simpl. split.
  - intros (x & y & Hx & Hy & _ & _ & row & v & Hrow & Hpix).
    pose proof (Forall_lookup_1 _ _ _ _ Hrect Hrow) as Hlen.
    simpl in Hlen.
    apply lookup_lt_Some in Hrow. apply lookup_lt_Some in Hpix. lia.
  - intros (Hx & Hy & HW & HH).
    destruct (lookup_lt_is_Some_2 img (Z.to_nat Y1)) as [row Hrow]; [lia |].
    pose proof (Forall_lookup_1 _ _ _ _ Hrect Hrow) as Hlen.
    simpl in Hlen.
    destruct (lookup_lt_is_Some_2 row (Z.to_nat X1)) as [v Hpix]; [lia |].
    exists X1, Y1. split; [lia |]. split; [lia |]. split; [lia |].
    split; [lia |]. by exists row, v.
Qed.

Lemma ink_at_in_image (img : image) (x y : Z) :
  ink_at img x y -> in_image img x y.
Proof.
  intros (Hx & Hy & row & v & Hrow & Hpix & _).
  split; [done |]. split; [done |]. by exists row, v.
Qed.

(** X11.  Shrink-wrapping is idempotent: for a box with integer
    coordinates, [0 <= X1] and [0 <= Y1], that holds a pixel of the image,
    the step returns a box, and on that box and the same image it returns
    it again. *)
Theorem shrink_wrap_idempotent (img : image) (X1 Y1 X2 Y2 : Z) :
  0 <= X1 -> 0 <= Y1 -> reaches img (mkZBox X1 Y1 X2 Y2) ->
  exists out,
    shrink_wrap img (box X1 Y1 X2 Y2) = Ok out /\
    shrink_wrap img (zbox_box out) = Ok out.
Proof.
  intros HX HY Hreach.
  assert (X1 <= X2 /\ Y1 <= Y2) as [HX2 HY2].
  { destruct Hreach as (x & y & Hx & Hy & _). simpl in *. lia. }
  destruct (shrink_wrap_cases img X1 Y1 X2 Y2) as [[Hno _] | [_ Hret]];
    [lia | lia | done |].
  destruct Hret as (out & Hout & Hin & Hw & Hh & Hcov & Hcase).
  set (b := mkZBox X1 Y1 X2 Y2) in *.
  exists out. split; [done |].
  destruct Hin as (Hx1 & Hy1 & Hx2 & Hy2). simpl in Hx1, Hy1, Hx2, Hy2.
  assert (bounding_box_or (ink_in img out) out out /\ reaches img out)
    as [Hself Hreach'].
  { destruct Hcase as [((ya & Hl) & (yb & Hr) & (xa & Ht) & (xb & Hb))
                      | [Heq Hnone]].
    - pose proof (Hcov _ _ Hl) as [? ?]. pose proof (Hcov _ _ Hr) as [? ?].
      pose proof (Hcov _ _ Ht) as [? ?]. pose proof (Hcov _ _ Hb) as [? ?].
      destruct Hl as (_ & _ & Hl). destruct Hr as (_ & _ & Hr).
      destruct Ht as (_ & _ & Ht). destruct Hb as (_ & _ & Hb).
      split.
      + split; [by intros x y (Hx & Hy & _) |]. left.
        split; [exists ya; split; [lia | split; [lia | done]] |].
        split; [exists yb; split; [lia | split; [lia | done]] |].
        split; [exists xa; split; [lia | split; [lia | done]] |].
        exists xb; split; [lia | split; [lia | done]].
      + exists (zx1 out), ya. split; [lia |]. split; [lia |].
        by apply ink_at_in_image.
    - rewrite Heq. split; [| done].
      split; [by intros x y (Hx & Hy & _) |]. right. by split. }
  unfold zbox_box.
  destruct (shrink_wrap_cases img (zx1 out) (zy1 out) (zx2 out) (zy2 out))
    as [[Hno _] | [_ (out2 & Hout2 & _ & _ & _ & Hbb)]]; [lia | lia | |].
  { exfalso. apply Hno. by destruct out. }
  rewrite Hout2. f_equal.
  replace (mkZBox (zx1 out) (zy1 out) (zx2 out) (zy2 out)) with out
    in Hbb by (by destruct out).
  by eapply (bounding_box_or_unique (ink_in img out) (ink_in img out) out).
Qed.

Lemma shrink_wrap_idempotent_witness :
  0 <= 0 /\ reaches small_page (mkZBox 0 0 4 4) /\
  exists out,
    shrink_wrap small_page (box 0 0 4 4) = Ok out /\
    shrink_wrap small_page (zbox_box out) = Ok out.
Proof.
  assert (0 <= 0) as H by lia.
  assert (reaches small_page (mkZBox 0 0 4 4)) as Hr.
  { exists 0, 0. simpl. split; [lia |]. split; [lia |].
    split; [lia |]. split; [lia |]. eexists _, _. split; reflexivity. }
  split; [exact H |]. split; [exact Hr |].
  exact (shrink_wrap_idempotent small_page 0 0 4 4 H H Hr).
Defined.

(** X12.  The shrink-wrap step only looks at the pixels inside the box:
    two images that have the same pixels and the same ink pixels inside a
    box with integer coordinates, [0 <= X1 <= X2] and [0 <= Y1 <= Y2],
    give the same outcome, the same box or the same error, whatever they
    hold outside the box. *)
Theorem shrink_wrap_local (img img' : image) (X1 Y1 X2 Y2 : Z) :
  0 <= X1 <= X2 -> 0 <= Y1 <= Y2 ->
  (forall x y, X1 <= x < X2 -> Y1 <= y < Y2 ->
     (in_image img x y <-> in_image img' x y) /\
     (ink_at img x y <-> ink_at img' x y)) ->
  shrink_wrap img (box X1 Y1 X2 Y2) = shrink_wrap img' (box X1 Y1 X2 Y2).
Proof.
  intros HX HY Hsame.
  assert (reaches img (mkZBox X1 Y1 X2 Y2) <->
          reaches img' (mkZBox X1 Y1 X2 Y2)) as Hreach.
  { unfold reaches; simpl.
    split; intros (x & y & Hx & Hy & Hin); exists x, y;
      (split; [done |]); (split; [done |]); by apply (Hsame x y Hx Hy). }
  destruct (shrink_wrap_cases img X1 Y1 X2 Y2 HX HY)
    as [[Hno ->] | [Hyes (out & -> & _ & _ & _ & Hbb)]];
    destruct (shrink_wrap_cases img' X1 Y1 X2 Y2 HX HY)
    as [[Hno' ->] | [Hyes' (out' & -> & _ & _ & _ & Hbb')]].
  - done.
  - exfalso. by apply Hno, Hreach.
  - exfalso. by apply Hno', Hreach.
  - f_equal. eapply bounding_box_or_unique; [| exact Hbb | exact Hbb'].
    intros x y. unfold ink_in; simpl. split.
    + intros (Hx & Hy & Hink). repeat split; try lia.
      by apply (Hsame x y Hx Hy).
    + intros (Hx & Hy & Hink). repeat split; try lia.
      by apply (Hsame x y Hx Hy).
Qed.

Lemma shrink_wrap_local_witness :
  0 <= 1 <= 3 /\ 0 <= 1 <= 3 /\
  (forall x y, 1 <= x < 3 -> 1 <= y < 3 ->
     (in_image small_page x y <-> in_image other_page x y) /\
     (ink_at small_page x y <-> ink_at other_page x y)) /\
  shrink_wrap small_page (box 1 1 3 3) = shrink_wrap other_page (box 1 1 3 3).
Proof.
  assert (0 <= 1 <= 3) as H by lia.
  assert (forall x y, 1 <= x < 3 -> 1 <= y < 3 ->
     (in_image small_page x y <-> in_image other_page x y) /\
     (ink_at small_page x y <-> ink_at other_page x y)) as Hs.
  { intros x y Hx Hy.
    assert (y = 1 \/ y = 2) as [-> | ->] by lia; split; reflexivity. }
  split; [exact H |]. split; [exact H |]. split; [exact Hs |].
  exact (shrink_wrap_local small_page other_page 1 1 3 3 H H Hs).
Defined.

(** X22.  The shrink-wrap step on a box with integer coordinates,
    [0 <= X1 <= X2] and [0 <= Y1 <= Y2].  When the box holds no pixel of
    the image the step raises [cv2.error].  When it holds one, the step
    returns a box inside the input box that holds every ink pixel of the
    box; each side of it holds an ink pixel when the box has one, and it
    is the input box when the box has none.  On an image of [H] rows of
    [W] pixels the boxes that hold a pixel are those with [X1 < X2],
    [Y1 < Y2], [X1 < W] and [Y1 < H]. *)
Theorem shrink_wrap_contained (img : image) (X1 Y1 X2 Y2 : Z) :
  0 <= X1 <= X2 -> 0 <= Y1 <= Y2 ->
  let b := mkZBox X1 Y1 X2 Y2 in
  (~ reaches img b -> shrink_wrap img (box X1 Y1 X2 Y2) = Raise Cv2Error) /\
  (reaches img b ->
   exists out,
     shrink_wrap img (box X1 Y1 X2 Y2) = Ok out /\
     zcontained out b /\
     zx1 out <= zx2 out /\ zy1 out <= zy2 out /\
     (forall x y, ink_in img b x y ->
        zx1 out <= x < zx2 out /\ zy1 out <= y < zy2 out) /\
     ((exists x y, ink_in img b x y) ->
        (exists y, ink_in img b (zx1 out) y) /\
        (exists y, ink_in img b (zx2 out - 1) y) /\
        (exists x, ink_in img b x (zy1 out)) /\
        (exists x, ink_in img b x (zy2 out - 1))) /\
     (~ (exists x y, ink_in img b x y) -> out = b)) /\
  (forall W : nat, Forall (fun row => length row = W) img ->
     reaches img b <->
     X1 < X2 /\ Y1 < Y2 /\ X1 < Z.of_nat W /\ Y1 < Z.of_nat (length img)).
Proof.
  intros HX HY b.
  split; [| split].
  - intros Hno.
    by destruct (shrink_wrap_cases img X1 Y1 X2 Y2 HX HY)
      as [[_ H] | [Hyes _]].
  - intros Hyes.
    destruct (shrink_wrap_cases img X1 Y1 X2 Y2 HX HY)
      as [[Hno _] | [_ (out & Hout & Hin & Hw & Hh & Hcov & Hcase)]];
      [done |].
    exists out. split; [done |]. split; [done |]. split; [done |].
    split; [done |]. split; [exact Hcov |]. split.
    + intros (x & y & Hxy).
      destruct Hcase as [Htight | [_ Hnone]]; [done |].
      by apply Hnone in Hxy.
    + intros Hnone.
      destruct Hcase as [((ya & Hl) & _) | [Heq _]]; [| done].
      exfalso. apply Hnone. by exists (zx1 out), ya.
  - intros W Hrect. apply reaches_rectangular; [done | lia | lia].
Qed.

Lemma shrink_wrap_contained_witness :
  0 <= 0 <= 4 /\ 0 <= 0 <= 4 /\
  let b := mkZBox 0 0 4 4 in
  (~ reaches small_page b ->
   shrink_wrap small_page (box 0 0 4 4) = Raise Cv2Error) /\
  (reaches small_page b ->
   exists out,
     shrink_wrap small_page (box 0 0 4 4) = Ok out /\
     zcontained out b /\
     zx1 out <= zx2 out /\ zy1 out <= zy2 out /\
     (forall x y, ink_in small_page b x y ->
        zx1 out <= x < zx2 out /\ zy1 out <= y < zy2 out) /\
     ((exists x y, ink_in small_page b x y) ->
        (exists y, ink_in small_page b (zx1 out) y) /\
        (exists y, ink_in small_page b (zx2 out - 1) y) /\
        (exists x, ink_in small_page b x (zy1 out)) /\
        (exists x, ink_in small_page b x (zy2 out - 1))) /\
     (~ (exists x y, ink_in small_page b x y) -> out = b)) /\
  (forall W : nat, Forall (fun row => length row = W) small_page ->
     reaches small_page b <->
     0 < 4 /\ 0 < 4 /\ 0 < Z.of_nat W /\ 0 < Z.of_nat (length small_page)).
Proof.
  assert (0 <= 0 <= 4) as H by lia.
  split; [exact H |]. split; [exact H |].
  exact (shrink_wrap_contained small_page 0 0 4 4 H H).
Defined.

End ShrinkWrapperMore.

(** * The pipeline of [main] *)

Section Pipeline.
Import YOLO.

Lemma reading_order_bbox (l : list ZBox) : bbox <$> reading_order l = l.
Proof.
  unfold reading_order.
  assert (forall (k : nat),
    bbox <$> imap (fun i b => mkEntry (Z.of_nat (k + i) + 1) b) l = l) as H.
  { induction l as [| b l IH]; intros k; simpl; [done |].
    f_equal. etrans; [| apply (IH (S k))]. f_equal.
    apply imap_ext. intros i x _. simpl. do 2 f_equal. lia. }
  apply (H 0%nat).
Qed.

Lemma merge_overlapping_boxes_nil_or_run (raw_boxes : list Box) e :
  merge_overlapping_boxes raw_boxes (3 # 10) = Raise e ->
  (length raw_boxes =? 0)%nat = false.
Proof.
  destruct raw_boxes; [done |]. done.
Qed.

(** The loop over the ordered boxes returns the boxes of the steps, or
    the error of the first step that raises. *)
Lemma shrink_all_cases (img : image) (l : list Box) :
  (exists final,
     shrink_all img l = Ok final /\
     Forall2 (fun b o => shrink_wrap img b = Ok o) l final) \/
  (exists e b,
     shrink_all img l = Raise e /\ b ∈ l /\ shrink_wrap img b = Raise e) \/
  (exists b, b ∈ l /\ shrink_wrap img b = OutOfFuel).
Proof.
  induction l as [| b l IH]; simpl.
  - left. exists []. by split.
  - destruct (shrink_wrap img b) as [o | e |] eqn:Hb; simpl.
    + destruct IH as [(final & -> & Hall) | [(e & c & -> & Hc & He)
                                            | (c & Hc & He)]]; simpl.
      * left. exists (o :: final). split; [done |]. by constructor.
      * right. left. exists e, c. split; [done |].
        split; [by apply list_elem_of_further | done].
      * right. right. exists c. split; [by apply list_elem_of_further | done].
    + right. left. exists e, b. split; [done |].
      split; [apply list_elem_of_here | done].
    + right. right. exists b. split; [apply list_elem_of_here | done].
Qed.

Lemma shrink_wrap_fuel (img : image) (b : Box) : shrink_wrap img b <> OutOfFuel.
Proof.
  unfold shrink_wrap, threshold, findNonZero.
  destruct (is_empty _); simpl; [done |].
  destruct (image_points 0 _); [done |].
  by destruct (boundingRect _) as [[[? ?] ?] ?].
Qed.

(** X13.  The part of [main] after detection, on any image and any
    boxes.  When the merger raises, the pipeline raises the same error.
    When the merger returns a list, the list is put in the order of
    [xy_cut_sort] from right to left and shrink-wrapped box by box.  When
    a shrink-wrap step raises, the pipeline raises that error and writes
    no record; otherwise the output has one record per merged box, with
    the shrink-wrapped boxes in that order, numbered [1, 2, ...], and no
    more records than detected boxes. *)
Theorem pipeline_outcome (full_img_gray : image) (raw_boxes : list Box) :
  (forall e,
     merge_overlapping_boxes raw_boxes (3 # 10) = Raise e ->
     pipeline full_img_gray raw_boxes = Raise e) /\
  (forall cleaned_boxes,
     merge_overlapping_boxes raw_boxes (3 # 10) = Ok cleaned_boxes ->
     exists ordered_boxes,
       xy_cut_sort cleaned_boxes true = Ok ordered_boxes /\
       ordered_boxes ≡ₚ cleaned_boxes /\
       ((exists e b,
           b ∈ ordered_boxes /\
           shrink_wrap full_img_gray b = Raise e /\
           pipeline full_img_gray raw_boxes = Raise e) \/
        (exists final_output_boxes entries,
           Forall2 (fun b o => shrink_wrap full_img_gray b = Ok o)
             ordered_boxes final_output_boxes /\
           pipeline full_img_gray raw_boxes = Ok entries /\
           bbox <$> entries = final_output_boxes /\
           index <$> entries = Z.of_nat <$> seq 1 (length cleaned_boxes) /\
           (length entries <= length raw_boxes)%nat))).
Proof.
  split.
  - intros e Hmerge. unfold pipeline.
    rewrite (merge_overlapping_boxes_nil_or_run _ _ Hmerge).
    by rewrite Hmerge.
  - intros cleaned Hmerge.
    destruct (xy_cut_sort_total cleaned true) as (ordered & Hsort & Hperm).
    exists ordered. split; [done |]. split; [done |].
    assert (length cleaned <= length raw_boxes)%nat as Hlen.
    { destruct (merge_overlapping_boxes_cases (3 # 10) raw_boxes)
        as [[_ H] | [_ H]]; rewrite Hmerge in H.
      - by injection H as ->.
      - inversion H as [out Hm Hp |]; subst.
        by destruct (merges_length _ _ _ Hm) as [? _]. }
    assert (pipeline full_img_gray raw_boxes
            = final ← shrink_all full_img_gray ordered;
              Ok (reading_order final)) as ->.
    { unfold pipeline. destruct (length raw_boxes =? 0)%nat eqn:E.
      - apply Nat.eqb_eq in E. apply length_zero_iff_nil in E as ->.
        vm_compute in Hmerge. injection Hmerge as <-.
        vm_compute in Hsort. by injection Hsort as <-.
      - rewrite Hmerge. simpl. by rewrite Hsort. }
    destruct (shrink_all_cases full_img_gray ordered)
      as [(final & Hfinal & Hall) | [(e & b & Hraise & Hb & He)
                                    | (b & _ & Hb)]].
    + right. exists final, (reading_order final).
      pose proof (shrink_all_length _ _ _ Hfinal) as Hlf.
      rewrite Hfinal. simpl.
      split; [done |]. split; [done |].
      split; [apply reading_order_bbox |]. split.
      * by rewrite reading_order_index, Hlf, (Permutation_length Hperm).
      * unfold reading_order.
        by rewrite length_imap, Hlf, (Permutation_length Hperm).
    + left. exists e, b. rewrite Hraise. by repeat split.
    + by apply shrink_wrap_fuel in Hb.
Qed.

End Pipeline.

(** * Further properties of the inclusion expander *)

Section InclusionExpanderMore.
Import Magi.

(** *** The overlap test *)

Lemma boxes_overlap_value (a0 a1 a2 a3 b0 b1 b2 b3 threshold : Q) :
  boxes_overlap [a0; a1; a2; a3] [b0; b1; b2; b3] threshold
  = Ok (negb (Qltb a2 (b0 - threshold) || Qltb (b2 + threshold) a0
              || Qltb a3 (b1 - threshold) || Qltb (b3 + threshold) a1)).
Proof.
  unfold boxes_overlap; simpl.
  repeat (match goal with |- context [Qltb ?x ?y] => destruct (Qltb x y) end;
          simpl; try done).
Qed.

Lemma boxes_overlap_true (a0 a1 a2 a3 b0 b1 b2 b3 threshold : Q) :
  boxes_overlap [a0; a1; a2; a3] [b0; b1; b2; b3] threshold = Ok true <->
  b0 - threshold <= a2 /\ a0 <= b2 + threshold /\
  b1 - threshold <= a3 /\ a1 <= b3 + threshold.
Proof.
  rewrite boxes_overlap_value. split.
  - intros [= H]. apply negb_true_iff in H.
    repeat (apply orb_false_iff in H as [H ?]).
    repeat split; by apply Qltb_ge.
  - intros (H1 & H2 & H3 & H4). apply Qltb_ge in H1, H2, H3, H4.
    by rewrite H1, H2, H3, H4.
Qed.

Lemma boxes_overlap_bool (box1 box2 : list Q) (threshold : Q) :
  length box1 = 4%nat -> length box2 = 4%nat ->
  boxes_overlap box1 box2 threshold = Ok true \/
  boxes_overlap box1 box2 threshold = Ok false.
Proof.
  intros H1 H2.
  destruct (boxes_overlap_total box1 box2 threshold H1 H2) as [[|] ->]; auto.
Qed.

(** *** The loop over the content boxes, in full *)

Lemma from_text_shift pb A (t_idx : nat) tb texts' (n : nat) (v : Q) :
  from_text pb A (S t_idx) texts' n v ->
  from_text pb A t_idx (tb :: texts') n v.
Proof.
  intros (j & c & Hj & Hq & Hv). exists (S j), c.
  split; [done |]. split; [| done].
  by replace (t_idx + S j)%nat with (S t_idx + j)%nat by lia.
Qed.

Lemma from_text_here pb A (t_idx : nat) tb texts' (n : nat) (v : Q) :
  qualifies pb A t_idx tb -> tb !! n = Some v ->
  from_text pb A t_idx (tb :: texts') n v.
Proof.
  intros Hq Hv. exists 0%nat, tb. split; [done |]. split; [| done].
  by replace (t_idx + 0)%nat with t_idx by lia.
Qed.

Lemma source_step pb A (t_idx : nat) tb texts' (n : nat) (a g b : Q) :
  (b = g \/ from_text pb A (S t_idx) texts' n b) ->
  (g = a \/ (qualifies pb A t_idx tb /\ tb !! n = Some g)) ->
  b = a \/ from_text pb A t_idx (tb :: texts') n b.
Proof.
  intros [-> | Hlater] Hg.
  - destruct Hg as [-> | [Hq Hv]]; [by left |].
    right. by apply from_text_here.
  - right. by apply from_text_shift.
Qed.

Lemma expand_full (panel_box : list Q) (A : list Z) (texts : list (list Q)) :
  length panel_box = 4%nat ->
  Forall (fun b => length b = 4%nat) texts ->
  forall (t_idx : nat) acc,
  exists acc',
    expand panel_box A t_idx texts acc = Ok acc' /\
    corners_le acc' acc /\
    (forall (j : nat) c0 c1 c2 c3,
       texts !! j = Some [c0; c1; c2; c3] ->
       qualifies panel_box A (t_idx + j) [c0; c1; c2; c3] ->
       corners_le acc' (c0, c1, c2, c3)) /\
    corner_sources panel_box A t_idx texts acc acc'.
Proof.
  intros Hpb. induction 1 as [| text_box texts Hlen Hall IH];
    intros t_idx acc.
  - exists acc. split; [done |]. split; [apply corners_le_refl |].
    split; [intros j ? ? ? ? Hj; done |].
    destruct acc as [[[a1 a2] a3] a4]. simpl. by repeat split; left.
  - destruct text_box as [| t0 [| t1 [| t2 [| t3 [| ? ?]]]]]; try done.
    destruct acc as [[[a1 a2] a3] a4].
    set (tb := [t0; t1; t2; t3]).
    set (grown := (py_min a1 t0, py_min a2 t1, py_max a3 t2, py_max a4 t3)).
    assert (corners_le grown (a1, a2, a3, a4)) as Hgrow1
      by (subst grown; simpl; py_cases; repeat split; lra).
    assert (corners_le grown (t0, t1, t2, t3)) as Hgrow2
      by (subst grown; simpl; py_cases; repeat split; lra).
    assert (qualifies panel_box A t_idx tb /\
            expand panel_box A t_idx (tb :: texts) (a1, a2, a3, a4)
            = expand panel_box A (S t_idx) texts grown
            \/ ~ qualifies panel_box A t_idx tb /\
            expand panel_box A t_idx (tb :: texts) (a1, a2, a3, a4)
            = expand panel_box A (S t_idx) texts (a1, a2, a3, a4)) as Hstep.
    { cbn [expand]. unfold qualifies.
      destruct (bool_decide (Z.of_nat t_idx ∈ A)) eqn:Hmem.
      - apply bool_decide_eq_true in Hmem. left. split; [by left | done].
      - apply bool_decide_eq_false in Hmem.
        destruct (boxes_overlap_bool panel_box tb 5 Hpb eq_refl) as [Hov | Hov];
          rewrite Hov.
        + left. split; [by right | done].
        + right. split; [| done]. intros [? | ?]; [done | congruence]. }
    destruct Hstep as [[Hq ->] | [Hq ->]].
    + destruct (IH (S t_idx) grown)
        as ([[[b1 b2] b3] b4] & Hrun & Hle & Hcov & Hsrc).
      exists (b1, b2, b3, b4). split; [done |].
      split; [by eapply corners_le_trans |]. split.
      * intros [| j] c0 c1 c2 c3 Hj Hqj; simpl in Hj.
        -- injection Hj as <- <- <- <-. by eapply corners_le_trans.
        -- apply (Hcov j); [done |].
           by replace (S t_idx + j)%nat with (t_idx + S j)%nat by lia.
      * destruct Hsrc as (H1 & H2 & H3 & H4). simpl. repeat split.
        -- apply (source_step _ _ _ _ _ _ _ _ _ H1).
           destruct (py_min_choice a1 t0) as [-> | ->]; [by left | by right].
        -- apply (source_step _ _ _ _ _ _ _ _ _ H2).
           destruct (py_min_choice a2 t1) as [-> | ->]; [by left | by right].
        -- apply (source_step _ _ _ _ _ _ _ _ _ H3).
           destruct (py_max_choice a3 t2) as [-> | ->]; [by left | by right].
        -- apply (source_step _ _ _ _ _ _ _ _ _ H4).
           destruct (py_max_choice a4 t3) as [-> | ->]; [by left | by right].
    + destruct (IH (S t_idx) (a1, a2, a3, a4))
        as ([[[b1 b2] b3] b4] & Hrun & Hle & Hcov & Hsrc).
      exists (b1, b2, b3, b4). split; [done |]. split; [done |]. split.
      * intros [| j] c0 c1 c2 c3 Hj Hqj; simpl in Hj.
        -- exfalso. apply Hq. injection Hj as <- <- <- <-.
           by replace (t_idx + 0)%nat with t_idx in Hqj by lia.
        -- apply (Hcov j); [done |].
           by replace (S t_idx + j)%nat with (t_idx + S j)%nat by lia.
      * destruct Hsrc as (H1 & H2 & H3 & H4). simpl. repeat split.
        -- apply (source_step _ _ _ _ _ _ _ _ _ H1). by left.
        -- apply (source_step _ _ _ _ _ _ _ _ _ H2). by left.
        -- apply (source_step _ _ _ _ _ _ _ _ _ H3). by left.
        -- apply (source_step _ _ _ _ _ _ _ _ _ H4). by left.
Qed.

(** *** One panel, in full *)

Lemma qualifies_counts_for (res : detections) (i j : nat) (pb c : list Q) :
  qualifies pb (associated_text_indices (associations res) i) (0 + j) c <->
  counts_for res i pb j c.
Proof.
  unfold qualifies, counts_for. simpl.
  by rewrite associated_text_indices_elem.
Qed.

Lemma expand_panel_full (res : detections) (p_idx : nat) (p0 p1 p2 p3 : Q) :
  Forall (fun b => length b = 4%nat) (texts res) ->
  let pb := [p0; p1; p2; p3] in
  let A := associated_text_indices (associations res) p_idx in
  exists b1 b2 b3 b4,
    expand_panel res p_idx pb
    = Ok (mkZBox (py_int b1) (py_int b2) (py_int b3) (py_int b4)) /\
    corners_le (b1, b2, b3, b4) (p0, p1, p2, p3) /\
    (forall (j : nat) c0 c1 c2 c3,
       texts res !! j = Some [c0; c1; c2; c3] ->
       counts_for res p_idx pb j [c0; c1; c2; c3] ->
       corners_le (b1, b2, b3, b4) (c0, c1, c2, c3)) /\
    corner_sources pb A 0 (texts res) (p0, p1, p2, p3) (b1, b2, b3, b4).
Proof.
  intros Htexts pb A.
  destruct (expand_full pb A (texts res) eq_refl Htexts 0 (p0, p1, p2, p3))
    as ([[[b1 b2] b3] b4] & Hrun & Hle & Hcov & Hsrc).
  exists b1, b2, b3, b4. split; [| split; [done | split; [| done]]].
  - unfold expand_panel. simpl. fold A. fold pb. by rewrite Hrun.
  - intros j c0 c1 c2 c3 Hj Hq. apply (Hcov j); [done |].
    by apply qualifies_counts_for.
Qed.

(** The result of [get_inclusive_panels] panel by panel. *)
Lemma get_inclusive_panels_lookup (res : detections) :
  well_formed res ->
  exists out,
    get_inclusive_panels res = Ok out /\
    length out = length (panels res) /\
    (forall (i : nat) pb, panels res !! i = Some pb ->
       exists o, out !! i = Some o /\ expand_panel res i pb = Ok o) /\
    (forall (i : nat) o, out !! i = Some o ->
       exists pb, panels res !! i = Some pb /\ expand_panel res i pb = Ok o).
Proof.
  intros [Hps Htexts]. unfold get_inclusive_panels.
  destruct (panels_loop_spec res (panels res) Hps Htexts 0)
    as (out & Hout & Hlen & Hlook).
  exists out. split; [done |]. split; [done |]. split; [| exact Hlook].
  intros i pb Hi.
  destruct (lookup_lt_is_Some_2 out i) as [o Ho].
  { rewrite Hlen. by eapply lookup_lt_Some. }
  exists o. split; [done |].
  destruct (Hlook i o Ho) as (pb' & Hpb' & Hexp). simpl in Hexp.
  by replace pb with pb' by congruence.
Qed.

Lemma unpack4_bad (l : list Q) :
  length l <> 4%nat -> unpack4 l = Raise ValueError.
Proof. by destruct l as [| ? [| ? [| ? [| ? [| ? ?]]]]]. Qed.

Lemma panels_loop_bad (res : detections) (ps : list (list Q)) :
  Forall (fun b => length b = 4%nat) (texts res) ->
  Exists (fun pb => length pb <> 4%nat) ps ->
  forall p_idx, panels_loop res p_idx ps = Raise ValueError.
Proof.
  intros Htexts. induction ps as [| pb ps IH]; intros Hbad p_idx.
  - by apply Exists_nil in Hbad.
  - simpl. destruct (decide (length pb = 4%nat)) as [Hlen | Hlen].
    + destruct (expand_panel_spec res p_idx pb Hlen Htexts) as (o & -> & _).
      simpl. apply Exists_cons in Hbad as [Hbad | Hbad]; [done |].
      by rewrite IH.
    + unfold expand_panel. by rewrite unpack4_bad.
Qed.

Lemma expand_step (pb : list Q) (A : list Z) (t_idx : nat) (t0 t1 t2 t3 : Q)
  (texts : list (list Q)) (a1 a2 a3 a4 : Q) :
  length pb = 4%nat ->
  let tb := [t0; t1; t2; t3] in
  (qualifies pb A t_idx tb /\
   expand pb A t_idx (tb :: texts) (a1, a2, a3, a4)
   = expand pb A (S t_idx) texts
       (py_min a1 t0, py_min a2 t1, py_max a3 t2, py_max a4 t3)) \/
  (~ qualifies pb A t_idx tb /\
   expand pb A t_idx (tb :: texts) (a1, a2, a3, a4)
   = expand pb A (S t_idx) texts (a1, a2, a3, a4)).
Proof.
  intros Hpb tb. cbn [expand]. unfold qualifies.
  destruct (bool_decide (Z.of_nat t_idx ∈ A)) eqn:Hmem.
  - apply bool_decide_eq_true in Hmem. left. split; [by left | done].
  - apply bool_decide_eq_false in Hmem.
    destruct (boxes_overlap_bool pb tb 5 Hpb eq_refl) as [Hov | Hov];
      rewrite Hov.
    + left. split; [by right | done].
    + right. split; [| done]. intros [? | ?]; [done | congruence].
Qed.

(** More associated indices, or larger corners to start from, give
    larger corners. *)
Lemma expand_mono (pb : list Q) (A1 A2 : list Z) (texts : list (list Q)) :
  length pb = 4%nat ->
  Forall (fun b => length b = 4%nat) texts ->
  (forall z, z ∈ A1 -> z ∈ A2) ->
  forall (t_idx : nat) acc1 acc2,
    corners_le acc2 acc1 ->
    exists r1 r2,
      expand pb A1 t_idx texts acc1 = Ok r1 /\
      expand pb A2 t_idx texts acc2 = Ok r2 /\
      corners_le r2 r1.
Proof.
  intros Hpb Htexts Hsub.
  induction Htexts as [| text_box texts Hlen Hall IH];
    intros t_idx acc1 acc2 Hle.
  - by exists acc1, acc2.
  - destruct text_box as [| t0 [| t1 [| t2 [| t3 [| ? ?]]]]]; try done.
    destruct acc1 as [[[a1 a2] a3] a4], acc2 as [[[b1 b2] b3] b4].
    destruct Hle as (H1 & H2 & H3 & H4).
    destruct (expand_step pb A1 t_idx t0 t1 t2 t3 texts a1 a2 a3 a4 Hpb)
      as [[Hq1 ->] | [Hq1 ->]];
      destruct (expand_step pb A2 t_idx t0 t1 t2 t3 texts b1 b2 b3 b4 Hpb)
      as [[Hq2 ->] | [Hq2 ->]].
    + apply IH. simpl. py_cases; repeat split; lra.
    + exfalso. apply Hq2. destruct Hq1 as [Hin | Hov]; [left | by right].
      by apply Hsub.
    + apply IH. simpl. py_cases; repeat split; lra.
    + apply IH. by repeat split.
Qed.

(** *** Extra properties *)

(** X14.  With the threshold [0], which is the default of
    [boxes_overlap], the overlap test is symmetric on boxes with four
    coordinates: [boxes_overlap(a, b)] and [boxes_overlap(b, a)] return
    the same value.  Subtracting and adding [0] changes no coordinate, so
    the two calls compare the same numbers. *)
Theorem boxes_overlap_symmetric (box1 box2 : list Q) :
  length box1 = 4%nat -> length box2 = 4%nat ->
  boxes_overlap box1 box2 0 = boxes_overlap box2 box1 0.
Proof.
  intros H1 H2.
  destruct box1 as [| a0 [| a1 [| a2 [| a3 [| ? ?]]]]]; try done.
  destruct box2 as [| b0 [| b1 [| b2 [| b3 [| ? ?]]]]]; try done.
  rewrite !boxes_overlap_value. do 2 f_equal.
  apply eq_true_iff_eq. rewrite !orb_true_iff, !Qltb_lt. lra.
Qed.

Lemma boxes_overlap_symmetric_witness :
  length [0; 0; 100; 100] = 4%nat /\ length [90; 40; 120; 60] = 4%nat /\
  boxes_overlap [0; 0; 100; 100] [90; 40; 120; 60] 0
  = boxes_overlap [90; 40; 120; 60] [0; 0; 100; 100] 0.
Proof.
  split; [reflexivity |]. split; [reflexivity |].
  exact (boxes_overlap_symmetric [0; 0; 100; 100] [90; 40; 120; 60]
           eq_refl eq_refl).
Defined.

(** X15.  The overlap test grows with the threshold: two boxes with four
    coordinates that overlap within a threshold overlap within every
    larger one. *)
Theorem boxes_overlap_threshold (box1 box2 : list Q) (t t' : Q) :
  length box1 = 4%nat -> length box2 = 4%nat -> t <= t' ->
  boxes_overlap box1 box2 t = Ok true ->
  boxes_overlap box1 box2 t' = Ok true.
Proof.
  intros H1 H2 Ht.
  destruct box1 as [| a0 [| a1 [| a2 [| a3 [| ? ?]]]]]; try done.
  destruct box2 as [| b0 [| b1 [| b2 [| b3 [| ? ?]]]]]; try done.
  rewrite !boxes_overlap_true. lra.
Qed.

Lemma boxes_overlap_threshold_witness :
  length [0; 0; 100; 100] = 4%nat /\ length [103; 40; 120; 60] = 4%nat /\
  5 <= 8 /\
  boxes_overlap [0; 0; 100; 100] [103; 40; 120; 60] 5 = Ok true /\
  boxes_overlap [0; 0; 100; 100] [103; 40; 120; 60] 8 = Ok true.
Proof.
  assert (5 <= 8) as Ht by (vm_compute; discriminate).
  assert (boxes_overlap [0; 0; 100; 100] [103; 40; 120; 60] 5 = Ok true)
    as Hov by (vm_compute; reflexivity).
  split; [reflexivity |]. split; [reflexivity |].
  split; [exact Ht |]. split; [exact Hov |].
  exact (boxes_overlap_threshold [0; 0; 100; 100] [103; 40; 120; 60] 5 8
           eq_refl eq_refl Ht Hov).
Defined.

(** X16.  On a detection result whose boxes all have four coordinates,
    the box returned for a panel holds the panel and every content box
    that overlaps the panel within 5 pixels, each with its coordinates
    truncated by [int]. *)
Theorem expanded_panel_covers (res : detections) :
  well_formed res ->
  exists out,
    get_inclusive_panels res = Ok out /\
    forall (i : nat) p0 p1 p2 p3 o,
      panels res !! i = Some [p0; p1; p2; p3] ->
      out !! i = Some o ->
      ((zx1 o <= py_int p0)%Z /\ (zy1 o <= py_int p1)%Z /\
       (py_int p2 <= zx2 o)%Z /\ (py_int p3 <= zy2 o)%Z) /\
      forall (j : nat) c0 c1 c2 c3,
        texts res !! j = Some [c0; c1; c2; c3] ->
        boxes_overlap [p0; p1; p2; p3] [c0; c1; c2; c3] 5 = Ok true ->
        (zx1 o <= py_int c0)%Z /\ (zy1 o <= py_int c1)%Z /\
        (py_int c2 <= zx2 o)%Z /\ (py_int c3 <= zy2 o)%Z.
Proof.
  intros Hwf.
  destruct (get_inclusive_panels_lookup res Hwf)
    as (out & Hout & _ & Hlook & _).
  exists out. split; [done |].
  intros i p0 p1 p2 p3 o Hi Ho.
  destruct (Hlook i _ Hi) as (o' & Ho' & Hexp).
  assert (o' = o) as -> by congruence.
  destruct (expand_panel_full res i p0 p1 p2 p3 (proj2 Hwf))
    as (b1 & b2 & b3 & b4 & Hrun & Hle & Hcov & _).
  rewrite Hrun in Hexp. injection Hexp as <-. simpl.
  split.
  - destruct Hle as (? & ? & ? & ?). auto using py_int_mono.
  - intros j c0 c1 c2 c3 Hj Hov.
    destruct (Hcov j c0 c1 c2 c3 Hj) as (? & ? & ? & ?); [by right |].
    auto using py_int_mono.
Qed.

Lemma expanded_panel_covers_witness :
  well_formed two_bubbles /\
  exists out,
    get_inclusive_panels two_bubbles = Ok out /\
    forall (i : nat) p0 p1 p2 p3 o,
      panels two_bubbles !! i = Some [p0; p1; p2; p3] ->
      out !! i = Some o ->
      ((zx1 o <= py_int p0)%Z /\ (zy1 o <= py_int p1)%Z /\
       (py_int p2 <= zx2 o)%Z /\ (py_int p3 <= zy2 o)%Z) /\
      forall (j : nat) c0 c1 c2 c3,
        texts two_bubbles !! j = Some [c0; c1; c2; c3] ->
        boxes_overlap [p0; p1; p2; p3] [c0; c1; c2; c3] 5 = Ok true ->
        (zx1 o <= py_int c0)%Z /\ (zy1 o <= py_int c1)%Z /\
        (py_int c2 <= zx2 o)%Z /\ (py_int c3 <= zy2 o)%Z.
Proof.
  assert (well_formed two_bubbles) as H by (split; repeat constructor).
  split; [exact H |].
  exact (expanded_panel_covers two_bubbles H).
Defined.

(** X17.  On a detection result whose boxes all have four coordinates, a
    panel that no content box is associated with and that no content box
    overlaps within 5 pixels is returned with its own coordinates,
    truncated by [int]. *)
Theorem unrelated_panel_unchanged (res : detections) :
  well_formed res ->
  exists out,
    get_inclusive_panels res = Ok out /\
    forall (i : nat) p0 p1 p2 p3,
      panels res !! i = Some [p0; p1; p2; p3] ->
      (forall (j : nat) c, texts res !! j = Some c ->
         ((Z.of_nat i, Z.of_nat j) ∉ associations res) /\
         boxes_overlap [p0; p1; p2; p3] c 5 = Ok false) ->
      out !! i
      = Some (mkZBox (py_int p0) (py_int p1) (py_int p2) (py_int p3)).
Proof.
  intros Hwf.
  destruct (get_inclusive_panels_lookup res Hwf)
    as (out & Hout & _ & Hlook & _).
  exists out. split; [done |].
  intros i p0 p1 p2 p3 Hi Hnone.
  destruct (Hlook i _ Hi) as (o & Ho & Hexp). rewrite Ho. f_equal.
  destruct (expand_panel_full res i p0 p1 p2 p3 (proj2 Hwf))
    as (b1 & b2 & b3 & b4 & Hrun & _ & _ & Hsrc).
  rewrite Hrun in Hexp. injection Hexp as <-.
  assert (forall n v,
    ~ from_text [p0; p1; p2; p3]
        (associated_text_indices (associations res) i) 0 (texts res) n v)
    as Hno.
  { intros n v (j & c & Hj & Hq & _).
    apply qualifies_counts_for in Hq.
    destruct (Hnone j c Hj) as [Hassoc Hov].
    destruct Hq as [Hq | Hq]; [done | congruence]. }
  destruct Hsrc as ([-> | H1] & [-> | H2] & [-> | H3] & [-> | H4]);
    try done; by (exfalso; eapply Hno).
Qed.

Lemma unrelated_panel_unchanged_witness :
  well_formed lonely_panel /\
  exists out,
    get_inclusive_panels lonely_panel = Ok out /\
    forall (i : nat) p0 p1 p2 p3,
      panels lonely_panel !! i = Some [p0; p1; p2; p3] ->
      (forall (j : nat) c, texts lonely_panel !! j = Some c ->
         ((Z.of_nat i, Z.of_nat j) ∉ associations lonely_panel) /\
         boxes_overlap [p0; p1; p2; p3] c 5 = Ok false) ->
      out !! i
      = Some (mkZBox (py_int p0) (py_int p1) (py_int p2) (py_int p3)).
Proof.
  assert (well_formed lonely_panel) as H by (split; repeat constructor).
  split; [exact H |].
  exact (unrelated_panel_unchanged lonely_panel H).
Defined.

(** X18.  When every content box has four coordinates and some panel
    does not, [get_inclusive_panels] raises [ValueError] (the unpacking of
    the panel fails) and returns no box at all, also for the well-formed
    panels before it. *)
Theorem malformed_panel_raises (res : detections) :
  Forall (fun b => length b = 4%nat) (texts res) ->
  Exists (fun pb => length pb <> 4%nat) (panels res) ->
  get_inclusive_panels res = Raise ValueError.
Proof.
  intros Htexts Hbad. unfold get_inclusive_panels.
  by apply panels_loop_bad.
Qed.

Lemma malformed_panel_raises_witness :
  Forall (fun b => length b = 4%nat) (texts short_panel) /\
  Exists (fun pb => length pb <> 4%nat) (panels short_panel) /\
  get_inclusive_panels short_panel = Raise ValueError.
Proof.
  assert (Forall (fun b => length b = 4%nat) (texts short_panel)) as Ht
    by (repeat constructor).
  assert (Exists (fun pb => length pb <> 4%nat) (panels short_panel)) as Hp
    by (apply Exists_cons_tl, Exists_cons_hd; simpl; lia).
  split; [exact Ht |]. split; [exact Hp |].
  exact (malformed_panel_raises short_panel Ht Hp).
Defined.

Lemma panels_loop_assoc_ext (res res' : detections) (ps : list (list Q)) :
  texts res' = texts res ->
  (forall (i j : nat),
     (i < length (panels res))%nat -> (j < length (texts res))%nat ->
     (Z.of_nat i, Z.of_nat j) ∈ associations res <->
     (Z.of_nat i, Z.of_nat j) ∈ associations res') ->
  forall p_idx, (p_idx + length ps <= length (panels res))%nat ->
    panels_loop res p_idx ps = panels_loop res' p_idx ps.
Proof.
  intros Htexts Hiff.
  induction ps as [| panel_box ps IH]; intros p_idx Hlen; [done |].
  simpl in *.
  assert (expand_panel res p_idx panel_box
          = expand_panel res' p_idx panel_box) as ->.
  { unfold expand_panel. rewrite Htexts.
    destruct (unpack4 panel_box) as [acc | |]; simpl; try done.
    rewrite (expand_ext panel_box _
               (associated_text_indices (associations res') p_idx));
      [done |].
    intros t Ht. rewrite !associated_text_indices_elem.
    apply Hiff; lia. }
  destruct (expand_panel res' p_idx panel_box) as [b | |]; simpl; try done.
  by rewrite IH by lia.
Qed.

(** X19.  The associations count as a set of in-range pairs: two
    detection results with the same panels and content boxes, whose
    association lists hold the same pairs of a panel index and a content
    index in range, give the same result; order, repetitions and pairs
    out of range make no difference. *)
Theorem associations_as_set (ps ts : list (list Q)) (A1 A2 : list (Z * Z)) :
  (forall (i j : nat), (i < length ps)%nat -> (j < length ts)%nat ->
     (Z.of_nat i, Z.of_nat j) ∈ A1 <-> (Z.of_nat i, Z.of_nat j) ∈ A2) ->
  get_inclusive_panels (mkDetections ps ts A1)
  = get_inclusive_panels (mkDetections ps ts A2).
Proof.
  intros Hiff. unfold get_inclusive_panels. simpl.
  apply panels_loop_assoc_ext; [done | exact Hiff | simpl; lia].
Qed.

Lemma associations_as_set_witness :
  (forall (i j : nat),
     (i < length (panels two_bubbles))%nat ->
     (j < length (texts two_bubbles))%nat ->
     (Z.of_nat i, Z.of_nat j) ∈ associations two_bubbles <->
     (Z.of_nat i, Z.of_nat j) ∈ associations two_bubbles_repeated) /\
  get_inclusive_panels two_bubbles
  = get_inclusive_panels two_bubbles_repeated.
Proof.
  assert (forall (i j : nat),
     (i < length (panels two_bubbles))%nat ->
     (j < length (texts two_bubbles))%nat ->
     (Z.of_nat i, Z.of_nat j) ∈ associations two_bubbles <->
     (Z.of_nat i, Z.of_nat j) ∈ associations two_bubbles_repeated) as H.
  { intros i j Hi Hj. simpl in *. rewrite !elem_of_cons, !elem_of_nil.
    split; [tauto |].
    intros [H | [H | [H | []]]]; [by left | | by left].
    injection H as H _. lia. }
  split; [exact H |].
  exact (associations_as_set _ _ _ _ H).
Defined.

(** X20.  On a detection result whose boxes all have four coordinates,
    the box returned for a panel is no larger than needed: each of its
    four coordinates is [int] of that coordinate of the panel, or of a
    content box that is associated with the panel or overlaps it within
    5 pixels. *)
Theorem expanded_panel_tight (res : detections) :
  well_formed res ->
  exists out,
    get_inclusive_panels res = Ok out /\
    forall (i : nat) p0 p1 p2 p3 o,
      panels res !! i = Some [p0; p1; p2; p3] ->
      out !! i = Some o ->
      let pb := [p0; p1; p2; p3] in
      (zx1 o = py_int p0 \/ corner_from res i pb 0 (zx1 o)) /\
      (zy1 o = py_int p1 \/ corner_from res i pb 1 (zy1 o)) /\
      (zx2 o = py_int p2 \/ corner_from res i pb 2 (zx2 o)) /\
      (zy2 o = py_int p3 \/ corner_from res i pb 3 (zy2 o)).
Proof.
  intros Hwf.
  destruct (get_inclusive_panels_lookup res Hwf)
    as (out & Hout & _ & Hlook & _).
  exists out. split; [done |].
  intros i p0 p1 p2 p3 o Hi Ho pb.
  destruct (Hlook i _ Hi) as (o' & Ho' & Hexp).
  assert (o' = o) as -> by congruence.
  destruct (expand_panel_full res i p0 p1 p2 p3 (proj2 Hwf))
    as (b1 & b2 & b3 & b4 & Hrun & _ & _ & Hsrc).
  rewrite Hrun in Hexp. injection Hexp as <-. simpl.
  assert (forall n v,
    from_text pb (associated_text_indices (associations res) i) 0
      (texts res) n v ->
    corner_from res i pb n (py_int v)) as Hfrom.
  { intros n v (j & c & Hj & Hq & Hv).
    apply qualifies_counts_for in Hq. by exists j, c, v. }
  destruct Hsrc as (H1 & H2 & H3 & H4). repeat split.
  - destruct H1 as [-> | H1]; [by left | right; by apply Hfrom].
  - destruct H2 as [-> | H2]; [by left | right; by apply Hfrom].
  - destruct H3 as [-> | H3]; [by left | right; by apply Hfrom].
  - destruct H4 as [-> | H4]; [by left | right; by apply Hfrom].
Qed.

Lemma expanded_panel_tight_witness :
  well_formed two_bubbles /\
  exists out,
    get_inclusive_panels two_bubbles = Ok out /\
    forall (i : nat) p0 p1 p2 p3 o,
      panels two_bubbles !! i = Some [p0; p1; p2; p3] ->
      out !! i = Some o ->
      let pb := [p0; p1; p2; p3] in
      (zx1 o = py_int p0 \/ corner_from two_bubbles i pb 0 (zx1 o)) /\
      (zy1 o = py_int p1 \/ corner_from two_bubbles i pb 1 (zy1 o)) /\
      (zx2 o = py_int p2 \/ corner_from two_bubbles i pb 2 (zx2 o)) /\
      (zy2 o = py_int p3 \/ corner_from two_bubbles i pb 3 (zy2 o)).
Proof.
  assert (well_formed two_bubbles) as H by (split; repeat constructor).
  split; [exact H |].
  exact (expanded_panel_tight two_bubbles H).
Defined.

(** X21.  More associations only grow the boxes: when the boxes all have
    four coordinates and every pair of the first association list is in
    the second, each box returned with the first list lies inside the box
    returned for the same panel with the second. *)
Theorem more_associations_grow (ps ts : list (list Q))
  (A1 A2 : list (Z * Z)) :
  well_formed (mkDetections ps ts A1) ->
  (forall a, a ∈ A1 -> a ∈ A2) ->
  exists out1 out2,
    get_inclusive_panels (mkDetections ps ts A1) = Ok out1 /\
    get_inclusive_panels (mkDetections ps ts A2) = Ok out2 /\
    length out1 = length out2 /\
    forall (i : nat) o1 o2,
      out1 !! i = Some o1 -> out2 !! i = Some o2 -> zcontained o1 o2.
Proof.
  intros Hwf Hsub.
  assert (well_formed (mkDetections ps ts A2)) as Hwf' by exact Hwf.
  destruct (get_inclusive_panels_lookup _ Hwf)
    as (out1 & Hout1 & Hlen1 & _ & Hlook1).
  destruct (get_inclusive_panels_lookup _ Hwf')
    as (out2 & Hout2 & Hlen2 & _ & Hlook2).
  exists out1, out2. split; [done |]. split; [done |].
  split; [simpl in *; congruence |].
  intros i o1 o2 Ho1 Ho2.
  destruct (Hlook1 i o1 Ho1) as (pb & Hpb & Hexp1).
  destruct (Hlook2 i o2 Ho2) as (pb' & Hpb' & Hexp2).
  simpl in Hpb, Hpb'. assert (pb' = pb) as -> by congruence.
  destruct Hwf as [Hps Hts]. simpl in Hps, Hts.
  pose proof (Forall_lookup_1 _ _ _ _ Hps Hpb) as Hlen.
  destruct pb as [| p0 [| p1 [| p2 [| p3 [| ? ?]]]]]; try done.
  unfold expand_panel in Hexp1, Hexp2. simpl in Hexp1, Hexp2.
  destruct (expand_mono [p0; p1; p2; p3]
              (associated_text_indices A1 i) (associated_text_indices A2 i)
              ts eq_refl Hts) with (t_idx := 0%nat)
              (acc1 := (p0, p1, p2, p3)) (acc2 := (p0, p1, p2, p3))
    as ([[[a1 a2] a3] a4] & [[[b1 b2] b3] b4] & Hr1 & Hr2 & Hle).
  { intros z. rewrite !associated_text_indices_elem. apply Hsub. }
  { apply corners_le_refl. }
  rewrite Hr1 in Hexp1. rewrite Hr2 in Hexp2. simpl in Hexp1, Hexp2.
  injection Hexp1 as <-. injection Hexp2 as <-.
  destruct Hle as (? & ? & ? & ?).
  unfold zcontained; simpl. auto using py_int_mono.
Qed.

Lemma more_associations_grow_witness :
  well_formed two_bubbles_unlinked /\
  (forall a, a ∈ associations two_bubbles_unlinked ->
             a ∈ associations two_bubbles) /\
  exists out1 out2,
    get_inclusive_panels two_bubbles_unlinked = Ok out1 /\
    get_inclusive_panels two_bubbles = Ok out2 /\
    length out1 = length out2 /\
    forall (i : nat) o1 o2,
      out1 !! i = Some o1 -> out2 !! i = Some o2 -> zcontained o1 o2.
Proof.
  assert (well_formed two_bubbles_unlinked) as H
    by (split; repeat constructor).
  assert (forall a, a ∈ associations two_bubbles_unlinked ->
                    a ∈ associations two_bubbles) as Hs.
  { intros a Ha. simpl in Ha. by apply elem_of_nil in Ha. }
  split; [exact H |]. split; [exact Hs |].
  exact (more_associations_grow _ _ _ _ H Hs).
Defined.

End InclusionExpanderMore.
